(** * version-sync: a shallow embedding of [__main__.py] and its properties

    The program checks that a version string duplicated in several files is
    the same everywhere and can rewrite every occurrence to the highest one.

    Modelling choices.
    - A Python [str] is a [list ascii]; one [ascii] stands for one character
      of the decoded text.  The decimal digits are the ASCII ones.
    - Python's [None] is Rocq's [None]: a value that is either [None] or a
      [str] has type [option str].
    - Python integers are [Z]; slicing, [str.find] and list indexing follow
      Python's rules for negative and out-of-range indices.
    - The files of a world are what Python's text layer shows of them: the
      decoded characters after the translation of [\r\n] and [\r] into
      [\n] that [open] does on reading.  The map holds the files that are
      there and are text in UTF-8, which can be opened for reading and for
      writing; a path outside the map is a file that does not exist.  Files
      that are there and cannot be opened or decoded are not described.
      [readlines] cuts the text after every newline character.  Written
      text goes to the disk as it is (the line separator of the platform is
      [\n]); what a world shows after a write is that text read again.  The
      characters on the disk themselves are a second map ([text_layer],
      [set_version_str_disk]); [set_version_str_text_layer] relates the two
      levels.
    - An entry of the configuration is a record: its four keys are present
      and [line] and [char] are integers already.  A configuration with a
      missing key or a number that [int] refuses is not described.
    - [int] is the value of a digit string.  CPython refuses digit strings
      of more than 4300 characters ([ValueError]); [int_ok] says of a
      string that none of its digit runs is that long.
    - A [dict] keeps insertion order: it is an association list with
      distinct keys, maintained by [Dict.set].
    - Functions that print, touch files or raise live in the monad [M]
      (state and exceptions). *)

From Stdlib Require Import Ascii String ZArith NArith Lia.
From stdpp Require Import base list gmap strings.

Abbreviation str := (list ascii).

(** String literals of the program. *)
Definition py (s : string) : str := list_ascii_of_string s.

(** ** Python primitives *)

Module Py.

Definition newline : ascii := "010"%char.

(** The carriage return. *)
Definition cr : ascii := "013"%char.

(** [len(s)] *)
Definition len {A} (s : list A) : Z := Z.of_nat (length s).

(** How a slice bound [i] is adjusted for a sequence of length [n]:
    a negative bound counts from the end, and all bounds are clipped. *)
Definition adjust (n i : Z) : Z :=
  if (i <? 0)%Z then Z.max 0 (i + n) else Z.min i n.

(** [s[lo:hi]] *)
Definition slice {A} (s : list A) (lo hi : Z) : list A :=
  let l := adjust (len s) lo in
  let h := adjust (len s) hi in
  take (Z.to_nat (h - l)) (drop (Z.to_nat l) s).

(** [s[:hi]] *)
Definition slice_to {A} (s : list A) (hi : Z) : list A :=
  take (Z.to_nat (adjust (len s) hi)) s.

(** [s[lo:]] *)
Definition slice_from {A} (s : list A) (lo : Z) : list A :=
  drop (Z.to_nat (adjust (len s) lo)) s.

(** [s.startswith(sub)] *)
Fixpoint starts_with (sub s : str) : bool :=
  match sub, s with
  | [], _ => true
  | _ :: _, [] => false
  | a :: sub', b :: s' => if decide (a = b) then starts_with sub' s' else false
  end.

(** The leftmost occurrence of [sub] in [s], where [s] starts at offset
    [i] of the whole string. *)
Fixpoint search (sub s : str) (i : nat) : option nat :=
  if starts_with sub s then Some i
  else match s with
       | [] => None
       | _ :: s' => search sub s' (S i)
       end.

(** [s.find(sub, start)]: the lowest index at or after [start] where
    [sub] occurs, [-1] when there is none. *)
Definition find (s sub : str) (start : Z) : Z :=
  let n := len s in
  let st := if (start <? 0)%Z then Z.max 0 (start + n) else start in
  if (n <? st)%Z then (-1)%Z
  else match search sub (drop (Z.to_nat st) s) (Z.to_nat st) with
       | Some i => Z.of_nat i
       | None => (-1)%Z
       end.

(** Truth value of a string: the empty string is false. *)
Definition truthy (s : str) : bool :=
  match s with [] => false | _ :: _ => true end.

(** Truth value of a value that is [None] or a string. *)
Definition truthy_opt (v : option str) : bool :=
  match v with None => false | Some s => truthy s end.

(** How an f-string shows a value that is [None] or a string. *)
Definition fmt (v : option str) : str :=
  match v with None => py "None" | Some s => s end.

(** The regular expression class [\d]. *)
Definition is_digit (c : ascii) : bool :=
  (48 <=? nat_of_ascii c)%nat && (nat_of_ascii c <=? 57)%nat.

Definition digit_value (c : ascii) : N := (N_of_ascii c - 48)%N.

(** The longest digit string that [int] converts
    ([sys.int_max_str_digits], which the program leaves at its default). *)
Definition int_max_str_digits : Z := 4300.

(** [int(ds)] for a string of digits, of at most [int_max_str_digits]
    characters. *)
Definition int (ds : str) : N :=
  fold_left (fun acc c => (10 * acc + digit_value c)%N) ds 0%N.

(** [re.findall(r"\d+", s)]: the maximal runs of digits, left to right. *)
Fixpoint findall_digits (s : str) : list str :=
  match s with
  | [] => []
  | c :: s' =>
      let rest := findall_digits s' in
      if is_digit c then
        match s' with
        | d :: _ =>
            if is_digit d then
              match rest with
              | r :: rs => (c :: r) :: rs
              | [] => [[c]]
              end
            else [c] :: rest
        | [] => [[c]]
        end
      else rest
  end.

(** Iterating over, or calling [readlines()] on, a text file: every line
    keeps its newline; the last line has none when the text does not end
    with one. *)
Fixpoint readlines (text : str) : list str :=
  match text with
  | [] => []
  | c :: text' =>
      if decide (c = newline) then [c] :: readlines text'
      else match readlines text' with
           | [] => [[c]]
           | l :: ls => (c :: l) :: ls
           end
  end.

(** What [writelines(lines)] leaves in a file opened with ["w"]. *)
Definition writelines (lines : list str) : str := concat lines.

(** What a file opened with ["r"] shows of the characters [raw] on the
    disk: [\r\n] and [\r] are read as [\n]. *)
Fixpoint universal_newlines (raw : str) : str :=
  match raw with
  | [] => []
  | c :: rest =>
      if decide (c = cr) then
        match rest with
        | d :: rest' =>
            if decide (d = newline) then newline :: universal_newlines rest'
            else newline :: universal_newlines rest
        | [] => [newline]
        end
      else c :: universal_newlines rest
  end.

End Py.

(** ** Insertion-ordered dictionaries *)

Module Dict.

Definition t (V : Type) := list (str * V).

(** [d[k] = v]: an existing key keeps its place. *)
Fixpoint set {V} (d : t V) (k : str) (v : V) : t V :=
  match d with
  | [] => [(k, v)]
  | (k', v') :: d' =>
      if decide (k' = k) then (k', v) :: d' else (k', v') :: set d' k v
  end.

Fixpoint get {V} (d : t V) (k : str) : option V :=
  match d with
  | [] => None
  | (k', v') :: d' => if decide (k' = k) then Some v' else get d' k
  end.

(** [d.values()] *)
Definition values {V} (d : t V) : list V := map snd d.

(** [not d] is true exactly for the empty dictionary. *)
Definition is_empty {V} (d : t V) : bool :=
  match d with [] => true | _ :: _ => false end.

End Dict.

(** ** Effects: printing, files and exceptions *)

Inductive exn :=
| FileNotFoundError
| IndexError
| KeyError
| TypeError
| AssertionError.

#[global] Instance exn_eq_dec : EqDecision exn.
Proof. solve_decision. Defined.

(** A result of a computation that can only raise. *)
Inductive result (A : Type) :=
| Ok (a : A)
| Err (e : exn).
Arguments Ok {A} a.
Arguments Err {A} e.

Record world := World {
  files : gmap str str;     (* path -> text that the file shows *)
  stdout : list str         (* printed lines, oldest first *)
}.

Inductive outcome (A : Type) :=
| Ret (a : A) (w : world)
| Raise (e : exn) (w : world).
Arguments Ret {A} a w.
Arguments Raise {A} e w.

Definition M (A : Type) := world -> outcome A.

Definition ret {A} (a : A) : M A := fun w => Ret a w.

Definition bind {A B} (m : M A) (k : A -> M B) : M B :=
  fun w => match m w with
           | Ret a w' => k a w'
           | Raise e w' => Raise e w'
           end.

Definition raise {A} (e : exn) : M A := fun w => Raise e w.

Definition lift {A} (r : result A) : M A :=
  match r with Ok a => ret a | Err e => raise e end.

#[global] Instance M_ret : MRet M := @ret.
#[global] Instance M_bind : MBind M := fun A B k m => bind m k.

(** [print(line)] *)
Definition print (line : str) : M unit :=
  fun w => Ret tt (World (files w) (stdout w ++ [line])).

(** [open(file, "r")] followed by reading the whole text, which is what
    the world shows of the file; a file that does not exist raises. *)
Definition read_text (file : str) : M str :=
  fun w => match files w !! file with
           | Some text => Ret text w
           | None => Raise FileNotFoundError w
           end.

(** [open(file, "w")] followed by [writelines(lines)]: the file then shows
    the written text as it is read again. *)
Definition write_lines (file : str) (lines : list str) : M unit :=
  fun w =>
    Ret tt (World (<[file := Py.universal_newlines (Py.writelines lines)]>
                     (files w)) (stdout w)).

(** ** The program *)

(** One entry of a package: where a version string is in a file.  The
    fields are the values of the keys [file], [line], [char] and [end],
    [line] and [char] after [int]. *)
Record file_config := FileConfig {
  fc_file : str;
  fc_line : Z;
  fc_char : Z;
  fc_end : str
}.

(** The loop of [get_version_str] over [enumerate(in_file)]; falling out of
    the loop returns [None]. *)
Fixpoint get_version_lines (lines : list str) (i : Z)
    (line_number position : Z) (end_ : str) : option str :=
  match lines with
  | [] => None
  | line :: rest =>
      if (i =? line_number - 1)%Z then
        if Py.truthy end_ then
          let end_index := Py.find line end_ position in
          Some (Py.slice line position end_index)
        else Some (Py.slice line position (-1))
      else get_version_lines rest (i + 1) line_number position end_
  end.

Definition get_version_str (file : str) (line_number position : Z)
    (end_ : str) : M (option str) :=
  text ← read_text file;
  ret (get_version_lines (Py.readlines text) 0 line_number position end_).

(** [lines[i]] with Python's negative indices. *)
Definition list_index {A} (l : list A) (i : Z) : option nat :=
  let n := Py.len l in
  let j := if (i <? 0)%Z then (i + n)%Z else i in
  if ((0 <=? j) && (j <? n))%Z then Some (Z.to_nat j) else None.

(** [s + v]: concatenating [None] to a string is a type error. *)
Definition concat_value (s : str) (v : option str) : result str :=
  match v with
  | Some t => Ok (s ++ t)
  | None => Err TypeError
  end.

(** The part of [set_version_str] between reading and writing: the new
    list of lines. *)
Definition set_version_lines (lines : list str) (line_number position : Z)
    (end_ : str) (version : option str) : result (list str) :=
  match list_index lines (line_number - 1) with
  | None => Err IndexError
  | Some k =>
      let line := default [] (lines !! k) in
      let end_index :=
        if Py.truthy end_ then Py.find line end_ position else (-1)%Z in
      if negb (Py.truthy end_) || (end_index =? -1)%Z then
        match concat_value (Py.slice_to line position) version with
        | Ok s => Ok (<[k := s ++ [Py.newline]]> lines)
        | Err e => Err e
        end
      else
        match concat_value (Py.slice_to line position) version with
        | Ok s => Ok (<[k := s ++ Py.slice_from line end_index]> lines)
        | Err e => Err e
        end
  end.

Definition set_version_str (file : str) (line_number position : Z)
    (end_ : str) (version : option str) : M unit :=
  text ← read_text file;
  lines ← lift (set_version_lines (Py.readlines text) line_number position
                   end_ version);
  write_lines file lines.

(** *** On the disk *)

(** What the text layer shows of the files of a disk. *)
Definition text_layer (disk : gmap str str) : gmap str str :=
  Py.universal_newlines <$> disk.

(** [set_version_str] on the characters of the disk: the file is read
    through the text layer, the new lines are written as they are. *)
Definition set_version_str_disk (file : str) (line_number position : Z)
    (end_ : str) (version : option str) (disk : gmap str str)
    : result (gmap str str) :=
  match disk !! file with
  | None => Err FileNotFoundError
  | Some raw =>
      match set_version_lines (Py.readlines (Py.universal_newlines raw))
              line_number position end_ version with
      | Ok lines => Ok (<[file := Py.writelines lines]> disk)
      | Err e => Err e
      end
  end.

(** The loop of [versions_match]; [base] is [None] until a value that is
    not [None] has been seen. *)
Fixpoint versions_match_loop (vs : list (option str)) (base : option str)
    : bool :=
  match vs with
  | [] => true
  | v :: rest =>
      match base with
      | None => versions_match_loop rest v
      | Some _ =>
          if decide (base = v) then versions_match_loop rest base else false
      end
  end.

Definition versions_match (versions : Dict.t (option str)) : bool :=
  versions_match_loop (Dict.values versions) None.

Fixpoint report_lines (versions : Dict.t (option str)) : M unit :=
  match versions with
  | [] => ret tt
  | (name, v) :: rest =>
      print (Py.fmt v ++ py " in " ++ name) ;; report_lines rest
  end.

Definition report_mismatch (package : str)
    (versions : Dict.t (option str)) : M unit :=
  print (py "Version mismatch found in " ++ package);;
  report_lines versions;;
  print [].

(** [list(map(int, re.findall(r"\d+", v)))] *)
Definition tokens (v : str) : list N := map Py.int (Py.findall_digits v).

(** The inner loop of [get_highest_version]: does the candidate [v_arr]
    replace the current [highest_version]? *)
Fixpoint beats (highest_version v_arr : list N) : bool :=
  match highest_version with
  | [] => false
  | h :: hs =>
      match v_arr with
      | [] => false
      | x :: xs =>
          if (h <? x)%N then true
          else if (x <? h)%N then false
          else beats hs xs
      end
  end.

(** One round of the outer loop on a string [v]; the state is the pair
    [(highest_version, highest_str)], [None] before the first candidate. *)
Definition highest_step (st : option (list N * str)) (v : str)
    : option (list N * str) :=
  let v_arr := tokens v in
  match v_arr with
  | [] => st
  | _ :: _ =>
      match st with
      | None => Some (v_arr, v)
      | Some (highest_version, highest_str) =>
          if beats highest_version v_arr then Some (v_arr, v) else st
      end
  end.

(** The outer loop; [re.findall] raises on [None]. *)
Fixpoint highest_loop (vs : list (option str)) (st : option (list N * str))
    : result (option str) :=
  match vs with
  | [] => Ok (snd <$> st)
  | None :: _ => Err TypeError
  | Some v :: rest => highest_loop rest (highest_step st v)
  end.

Definition get_highest_version (versions : Dict.t (option str))
    : result (option str) :=
  highest_loop (Dict.values versions) None.

(** The first loop of [process_package]. *)
Fixpoint extract_all (package_config : list file_config)
    (versions : Dict.t (option str)) : M (Dict.t (option str)) :=
  match package_config with
  | [] => ret versions
  | fc :: rest =>
      v ← get_version_str (fc_file fc) (fc_line fc) (fc_char fc) (fc_end fc);
      extract_all rest (Dict.set versions (fc_file fc) v)
  end.

(** [versions[file_name]] *)
Definition version_of (versions : Dict.t (option str)) (file_name : str)
    : M (option str) :=
  match Dict.get versions file_name with
  | Some v => ret v
  | None => raise KeyError
  end.

(** The loop of [process_package] that rewrites the files. *)
Fixpoint upgrade_all (package_config : list file_config)
    (versions : Dict.t (option str)) (highest_version : option str)
    : M unit :=
  match package_config with
  | [] => ret tt
  | fc :: rest =>
      v ← version_of versions (fc_file fc);
      if decide (v = highest_version) then
        upgrade_all rest versions highest_version
      else
        print (py "  Updated " ++ fc_file fc);;
        set_version_str (fc_file fc) (fc_line fc) (fc_char fc) (fc_end fc)
          highest_version;;
        upgrade_all rest versions highest_version
  end.

Definition process_package (package_name : str)
    (package_config : list file_config) (upgrade : bool)
    : M (option str) :=
  versions ← extract_all package_config [];
  if negb (versions_match versions) then
    highest_version ← lift (get_highest_version versions);
    if upgrade then
      print (py "Upgrading " ++ package_name ++ py " to version "
               ++ Py.fmt highest_version);;
      upgrade_all package_config versions highest_version;;
      print [];;
      ret None
    else
      report_mismatch package_name versions;;
      ret highest_version
  else ret None.

(** The loop of [process_config] that fills [upgrades]. *)
Fixpoint collect_upgrades (config : list (str * list file_config))
    (upgrade : bool) (upgrades : Dict.t (option str))
    : M (Dict.t (option str)) :=
  match config with
  | [] => ret upgrades
  | (package_name, package_config) :: rest =>
      upgrade_to ← process_package package_name package_config upgrade;
      if Py.truthy_opt upgrade_to then
        collect_upgrades rest upgrade (Dict.set upgrades package_name upgrade_to)
      else collect_upgrades rest upgrade upgrades
  end.

Fixpoint print_upgrades (upgrades : Dict.t (option str)) : M unit :=
  match upgrades with
  | [] => ret tt
  | (package_name, version) :: rest =>
      print (package_name ++ py " to " ++ Py.fmt version);;
      print_upgrades rest
  end.

Definition process_config (config : list (str * list file_config))
    (upgrade : bool) : M bool :=
  upgrades ← collect_upgrades config upgrade [];
  if Dict.is_empty upgrades then
    print (py "All versions match");;
    ret true
  else if negb upgrade then
    print (py "Run with -u to automatically upgrade the following packages:");;
    print_upgrades upgrades;;
    ret true
  else raise AssertionError.

(** ** Specification-side notions used in the statements *)

(** A dictionary all of whose values are strings. *)
Definition of_strings (m : list (str * str)) : Dict.t (option str) :=
  map (fun kv => (kv.1, Some kv.2)) m.

Definition no_digit (s : str) : Prop := Forall (fun c => Py.is_digit c = false) s.
Definition all_digits (s : str) : Prop := Forall (fun c => Py.is_digit c = true) s.

(** [digit_runs s rs]: [rs] lists, left to right, the maximal runs of
    decimal digits of [s]. *)
Inductive digit_runs : str -> list str -> Prop :=
| runs_none (s : str) :
    no_digit s -> digit_runs s []
| runs_cons (pre ds rest : str) (rs : list str) :
    no_digit pre ->
    ds <> [] -> all_digits ds ->
    (forall d, head rest = Some d -> Py.is_digit d = false) ->
    digit_runs rest rs ->
    digit_runs (pre ++ ds ++ rest) (ds :: rs).

(** [occurs_at sub s i]: [sub] occurs in [s] at index [i]. *)
Definition occurs_at (sub s : str) (i : nat) : Prop :=
  (i <= length s)%nat /\ sub `prefix_of` drop i s.

(** Where [s.find(sub, start)] starts looking. *)
Definition start_index (s : str) (start : Z) : Z :=
  if (start <? 0)%Z then Z.max 0 (start + Py.len s) else start.

(** What extraction returns once it has reached its line. *)
Definition version_in_line (position : Z) (end_ : str) (line : str) : str :=
  if Py.truthy end_ then Py.slice line position (Py.find line end_ position)
  else Py.slice line position (-1).

(** [selected_line lines n line]: [line] is the line that line number [n]
    designates in [lines]: the line of 0-based index [n - 1], or, for
    [n < 1], the line that Python's negative index [n - 1] designates. *)
Definition selected_line (lines : list str) (line_number : Z) (line : str)
    : Prop :=
  exists k : nat,
    lines !! k = Some line /\
    (Z.of_nat k = line_number - 1 \/
     Z.of_nat k = line_number - 1 + Py.len lines)%Z.

(** A line as a text file has them: no newline except as its last
    character, which only the final line of a file may lack. *)
Definition line_ok (final : bool) (l : str) : Prop :=
  exists body : str,
    (Py.newline ∉ body) /\
    (l = body ++ [Py.newline] \/ (final = true /\ body <> [] /\ l = body)).

Fixpoint lines_ok (ls : list str) : Prop :=
  match ls with
  | [] => True
  | l :: ls' => line_ok (bool_decide (ls' = [])) l /\ lines_ok ls'
  end.

(** [starts_nowhere_in end_ v]: in the new version [v] followed by the
    terminator, the terminator starts nowhere before the end of [v]. *)
Definition starts_nowhere_in (end_ v : str) : Prop :=
  forall i : nat, (i < length v)%nat -> ~ end_ `prefix_of` drop i (v ++ end_).

(** [never_asserts m]: whatever [m] raises, it is not [AssertionError]. *)
Definition never_asserts {A} (m : M A) : Prop :=
  forall (w w' : world) (e : exn), m w = Raise e w' -> e <> AssertionError.

(** [int_ok v]: [int] converts every digit run of [v], none being longer
    than [Py.int_max_str_digits]; on such strings [get_highest_version]
    raises no [ValueError]. *)
Definition int_ok (v : str) : Prop :=
  Forall (fun ds => (Py.len ds <= Py.int_max_str_digits)%Z)
    (Py.findall_digits v).

#[global] Instance int_ok_dec (v : str) : Decision (int_ok v).
Proof. unfold int_ok. apply _. Defined.

(** What the scan of [get_highest_version] makes of the result [r] so far
    and the next string [v]. *)
Definition scan_step (r : option str) (v : str) : option str :=
  match r with
  | None => if decide (tokens v = []) then None else Some v
  | Some s => if beats (tokens s) (tokens v) then Some v else Some s
  end.

(** What the state [(highest_version, highest_str)] of the outer loop of
    [get_highest_version] satisfies all along, for strings taken from [vs]. *)
Definition state_ok (vs : list str) (st : option (list N * str)) : Prop :=
  forall hv hs, st = Some (hv, hs) -> hv = tokens hs /\ hv <> [] /\ hs ∈ vs.

(** [unbeaten seen st]: no string met so far has a token vector that would
    replace the current best of the outer loop of [get_highest_version];
    before the first candidate, no string met had a token. *)
Definition unbeaten (seen : list str) (st : option (list N * str)) : Prop :=
  match st with
  | Some (hv, _) => forall u, u ∈ seen -> beats hv (tokens u) = false
  | None => forall u, u ∈ seen -> tokens u = []
  end.

(** The world an outcome leaves. *)
Definition world_of {A} (o : outcome A) : world :=
  match o with Ret _ w => w | Raise _ w => w end.

(** [raises_only P m]: whatever [m] raises satisfies [P]. *)
Definition raises_only {A} (P : exn -> Prop) (m : M A) : Prop :=
  forall (w w' : world) (e : exn), m w = Raise e w' -> P e.

(** [touches_only fs m]: whatever its outcome, [m] leaves every file whose
    path is not in [fs] as it was. *)
Definition touches_only {A} (fs : list str) (m : M A) : Prop :=
  forall (w : world) (f : str),
    f ∉ fs -> files (world_of (m w)) !! f = files w !! f.

(** The exceptions of a run, and those of a run that only checks. *)
Definition run_error (e : exn) : Prop :=
  e = FileNotFoundError \/ e = IndexError \/ e = TypeError.
Definition check_error (e : exn) : Prop :=
  e = FileNotFoundError \/ e = TypeError.

(** The paths a package, and a configuration, name. *)
Definition package_files (pc : list file_config) : list str := fc_file <$> pc.
Definition config_files (config : list (str * list file_config)) : list str :=
  concat ((fun p => package_files p.2) <$> config).

(** What extraction returns at a location in world [w] ([None] also when
    the file is missing, where extraction raises). *)
Definition location_value (w : world) (fc : file_config) : option str :=
  match files w !! fc_file fc with
  | Some text =>
      get_version_lines (Py.readlines text) 0 (fc_line fc) (fc_char fc)
        (fc_end fc)
  | None => None
  end.

(** The dictionary that the first loop of [process_package] builds. *)
Definition extracted (w : world) (pc : list file_config)
    (versions : Dict.t (option str)) : Dict.t (option str) :=
  foldl (fun d fc => Dict.set d (fc_file fc) (location_value w fc)) versions pc.

(** The lines that [report_mismatch] prints. *)
Definition report_text (package : str) (versions : Dict.t (option str))
    : list str :=
  [py "Version mismatch found in " ++ package]
  ++ ((fun kv => Py.fmt kv.2 ++ py " in " ++ kv.1) <$> versions)
  ++ [[]].

(** The file of the location can be read and has the line. *)
Definition location_ok (w : world) (fc : file_config) : Prop :=
  exists text : str,
    files w !! fc_file fc = Some text /\
    (1 <= fc_line fc <= Py.len (Py.readlines text))%Z.

(** The location currently holds a version string with a digit, whose
    digit runs [int] converts. *)
Definition has_version (w : world) (fc : file_config) : Prop :=
  exists v : str, location_value w fc = Some v /\ ~ no_digit v /\ int_ok v.

(** Whatever string the location holds, [int] converts its digit runs. *)
Definition value_int_ok (w : world) (fc : file_config) : Prop :=
  forall v : str, location_value w fc = Some v -> int_ok v.

(** The text of the file of the location has no carriage return, as every
    text that the text layer shows. *)
Definition text_shown (w : world) (fc : file_config) : Prop :=
  forall text : str, files w !! fc_file fc = Some text -> Py.cr ∉ text.

(** Every location of the package holds the string [h]. *)
Definition all_hold (w : world) (pc : list file_config) (h : str) : Prop :=
  forall fc, fc ∈ pc -> location_value w fc = Some h.

(** A location that upgrading can rewrite faithfully: it holds a version
    with a digit, its column is not negative and its terminator has no
    newline. *)
Definition location_ready (w : world) (fc : file_config) : Prop :=
  has_version w fc /\ (0 <= fc_char fc)%Z /\ Py.newline ∉ fc_end fc.

(** No terminator of the package starts inside a version that a location
    of the package holds (the version being followed by the terminator). *)
Definition terminators_clear (w : world) (pc : list file_config) : Prop :=
  forall (fc fc' : file_config) (v : str),
    fc ∈ pc -> fc' ∈ pc -> location_value w fc' = Some v ->
    fc_end fc <> [] -> starts_nowhere_in (fc_end fc) v.

(** ** Equality check: [versions_match] *)

Section VersionsMatch.

Implicit Types (m : list (str * str)) (vs : list str) (b v : str).

Lemma values_of_strings m : Dict.values (of_strings m) = Some <$> m.*2.
Proof.
  unfold Dict.values, of_strings. induction m as [|[k v] m IH]; simpl; [done|].
  by f_equal.
Qed.

Lemma versions_match_loop_base vs b :
  versions_match_loop (Some <$> vs) (Some b) = true <-> forall v, v ∈ vs -> v = b.
Proof.
  induction vs as [|x vs IH]; simpl.
  - split; [intros _ v Hv; by apply elem_of_nil in Hv | done].
  - destruct (decide (Some b = Some x)) as [Heq|Hne].
    + injection Heq as <-. rewrite IH. split.
      * intros H v Hv. apply elem_of_cons in Hv as [->|Hv]; auto.
      * intros H v Hv. apply H. by right.
    + split; [done|]. intros H. exfalso. apply Hne. f_equal.
      symmetry. apply H. by left.
Qed.

(** The result says that all values are pairwise equal. *)
Lemma versions_match_pairwise m :
  versions_match (of_strings m) = true <->
  forall v w, v ∈ m.*2 -> w ∈ m.*2 -> v = w.
Proof.
  unfold versions_match. rewrite values_of_strings.
  destruct (m.*2) as [|b vs]; simpl.
  - split; [intros _ v w Hv; by apply elem_of_nil in Hv | done].
  - rewrite versions_match_loop_base. split.
    + intros H v w Hv Hw.
      assert (Hb : forall x, x ∈ b :: vs -> x = b).
      { intros x Hx. apply elem_of_cons in Hx as [->|Hx]; auto. }
      by rewrite (Hb v Hv), (Hb w Hw).
    + intros H v Hv. apply H; [by right | by left].
Qed.

End VersionsMatch.

(** C8. [versions_match] on a mapping of strings: it is true exactly when
    every value equals the first value met; it is true for the empty mapping
    and for every mapping whose values are all the same, false for every
    mapping with two different values, and it does not depend on the order
    of the entries (hence not on which value is the baseline). *)
Theorem versions_match_spec :
  versions_match (of_strings []) = true /\
  forall m : list (str * str),
    (versions_match (of_strings m) = true <->
       forall b, head m.*2 = Some b -> forall v, v ∈ m.*2 -> v = b) /\
    ((forall v w, v ∈ m.*2 -> w ∈ m.*2 -> v = w) ->
       versions_match (of_strings m) = true) /\
    ((exists v w, v ∈ m.*2 /\ w ∈ m.*2 /\ v <> w) ->
       versions_match (of_strings m) = false) /\
    (forall m', m ≡ₚ m' ->
       versions_match (of_strings m') = versions_match (of_strings m)).
Proof.
  split; [done|]. intros m. repeat split.
  - intros H b Hb v Hv. rewrite versions_match_pairwise in H.
    apply H; [done|]. destruct (m.*2); [done|]. injection Hb as ->. by left.
  - intros H. apply versions_match_pairwise. intros v w Hv Hw.
    destruct (m.*2) as [|b vs] eqn:E; [by apply elem_of_nil in Hv|].
    by rewrite (H b eq_refl v Hv), (H b eq_refl w Hw).
  - apply versions_match_pairwise.
  - intros (v & w & Hv & Hw & Hne).
    destruct (versions_match (of_strings m)) eqn:E; [|done].
    rewrite versions_match_pairwise in E. destruct Hne. by apply E.
  - intros m' Hp.
    assert (Hiff : versions_match (of_strings m') = true <->
                   versions_match (of_strings m) = true).
    { rewrite !versions_match_pairwise.
      assert (Hv : m.*2 ≡ₚ m'.*2) by by apply fmap_Permutation.
      split; intros H v w Hv1 Hw1; apply H;
        (by rewrite Hv) || (by rewrite <- Hv). }
    destruct (versions_match (of_strings m')), (versions_match (of_strings m));
      try done.
    + symmetry. by apply Hiff.
    + by apply Hiff.
Qed.

Lemma versions_match_spec_witness :
  versions_match (of_strings [(py "a.txt", py "1.0"); (py "b.txt", py "1.0")])
    = true /\
  versions_match (of_strings [(py "a.txt", py "1.0"); (py "b.txt", py "1.1")])
    = false.
Proof.
  split.
  - apply (proj1 (proj2 (proj2 versions_match_spec
             [(py "a.txt", py "1.0"); (py "b.txt", py "1.0")]))).
    intros v w Hv Hw. simpl in Hv, Hw.
    apply elem_of_cons in Hv as [->|Hv]; [|apply list_elem_of_singleton in Hv as ->];
      (apply elem_of_cons in Hw as [->|Hw]; [|apply list_elem_of_singleton in Hw as ->]);
      reflexivity.
  - apply (proj1 (proj2 (proj2 (proj2 versions_match_spec
             [(py "a.txt", py "1.0"); (py "b.txt", py "1.1")])))).
    exists (py "1.0"), (py "1.1"). simpl. split; [by left|].
    split; [right; by left|]. discriminate.
Defined.

(** ** Tokenization: [re.findall(r"\d+", v)] *)

Section Tokens.

Implicit Types (s pre ds rest : str) (c d : ascii) (rs : list str).

Lemma findall_digits_cons c s :
  Py.findall_digits (c :: s) =
    if Py.is_digit c then
      match s with
      | d :: _ =>
          if Py.is_digit d then
            match Py.findall_digits s with
            | r :: rs => (c :: r) :: rs
            | [] => [[c]]
            end
          else [c] :: Py.findall_digits s
      | [] => [[c]]
      end
    else Py.findall_digits s.
Proof. reflexivity. Qed.

Lemma findall_digits_no_digit s : no_digit s -> Py.findall_digits s = [].
Proof.
  induction 1 as [|c s Hc _ IH]; [done|].
  by rewrite findall_digits_cons, Hc.
Qed.

Lemma findall_digits_skip pre s :
  no_digit pre -> Py.findall_digits (pre ++ s) = Py.findall_digits s.
Proof.
  induction 1 as [|c pre Hc _ IH]; [done|].
  by rewrite <- app_comm_cons, findall_digits_cons, Hc.
Qed.

Lemma findall_digits_run ds rest :
  ds <> [] -> all_digits ds ->
  (forall d, head rest = Some d -> Py.is_digit d = false) ->
  Py.findall_digits (ds ++ rest) = ds :: Py.findall_digits rest.
Proof.
  intros Hne Hds Hrest. induction Hds as [|c ds Hc Hds IH]; [done|].
  rewrite <- app_comm_cons, findall_digits_cons, Hc.
  destruct ds as [|c' ds].
  - simpl. destruct rest as [|d rest]; [done|].
    by rewrite (Hrest d eq_refl).
  - rewrite IH by done. apply Forall_cons in Hds as [Hc' Hds'].
    simpl. by rewrite Hc'.
Qed.

Local Ltac runs_side :=
  first [ done
        | by apply Forall_nil
        | by apply Forall_singleton
        | by apply Forall_cons
        | by apply runs_none, Forall_nil
        | by intros ? [= <-] ].

(** The source's tokenizer returns the maximal digit runs ... *)
Lemma findall_digits_runs s : digit_runs s (Py.findall_digits s).
Proof.
  induction s as [|c s IH]; [apply runs_none; by apply Forall_nil|].
  rewrite findall_digits_cons. destruct (Py.is_digit c) eqn:Hc.
  - destruct s as [|d s]; [apply (runs_cons [] [c] [] []); runs_side|].
    destruct (Py.is_digit d) eqn:Hd.
    + inversion IH as [s0 Hno|pre ds rest rs Hpre Hne Hds Hrest Hruns Heq Hrs].
      { apply Forall_cons in Hno as [Hno _]. congruence. }
      destruct pre as [|p pre].
      * apply (runs_cons [] (c :: ds) rest rs); runs_side.
      * apply Forall_cons in Hpre as [Hp _]. simpl in Heq.
        injection Heq as -> _. congruence.
    + apply (runs_cons [] [c] (d :: s)); runs_side.
  - inversion IH as [s0 Hno|pre ds rest rs Hpre Hne Hds Hrest Hruns Heq Hrs].
    + apply runs_none. runs_side.
    + apply (runs_cons (c :: pre) ds rest rs); runs_side.
Qed.

(** ... and nothing else is the list of maximal digit runs. *)
Lemma digit_runs_unique s rs : digit_runs s rs -> rs = Py.findall_digits s.
Proof.
  induction 1 as [s Hno|pre ds rest rs Hpre Hne Hds Hrest _ IH].
  - by rewrite findall_digits_no_digit.
  - by rewrite findall_digits_skip, findall_digits_run, IH.
Qed.

Lemma tokens_no_digit s : no_digit s -> tokens s = [].
Proof. intros H. unfold tokens. by rewrite findall_digits_no_digit. Qed.

End Tokens.

(** ** Highest version: [get_highest_version] *)

Section Highest.

Implicit Types (hv v_arr : list N) (hs v : str) (vs : list str)
  (st : option (list N * str)).

(** The candidate wins exactly when, at the first position where the two
    vectors differ within their common length, its number is larger. *)
Lemma beats_spec hv v_arr :
  beats hv v_arr = true <->
  exists (i : nat) (h x : N),
    hv !! i = Some h /\ v_arr !! i = Some x /\
    take i hv = take i v_arr /\ (h < x)%N.
Proof.
  revert v_arr. induction hv as [|h hs IH]; intros [|x xs]; simpl.
  - split; [done|]. by intros (i & ? & ? & ? & _).
  - split; [done|]. by intros (i & ? & ? & ? & _).
  - split; [done|]. by intros (i & ? & ? & _ & ? & _).
  - destruct (N.ltb_spec h x) as [Hlt|Hge].
    + split; [|done]. intros _. by exists 0%nat, h, x.
    + destruct (N.ltb_spec x h) as [Hlt'|Hge'].
      * split; [done|]. intros (i & h' & x' & Hh & Hx & Ht & Hlt).
        destruct i as [|i]; simpl in *.
        -- injection Hh as <-. injection Hx as <-. lia.
        -- injection Ht as -> _. lia.
      * assert (h = x) as -> by lia. rewrite IH. split.
        -- intros (i & h' & x' & Hh & Hx & Ht & Hlt).
           exists (S i), h', x'. simpl. by rewrite Ht.
        -- intros (i & h' & x' & Hh & Hx & Ht & Hlt).
           destruct i as [|i]; simpl in *.
           ++ injection Hh as <-. injection Hx as <-. lia.
           ++ injection Ht as Ht. by exists i, h', x'.
Qed.

(** Prefix-related vectors: no winner. *)
Lemma beats_prefix hv v_arr :
  hv `prefix_of` v_arr \/ v_arr `prefix_of` hv -> beats hv v_arr = false.
Proof.
  revert v_arr. induction hv as [|h hs IH]; intros [|x xs] H; simpl; try done.
  assert (h = x /\ (hs `prefix_of` xs \/ xs `prefix_of` hs)) as [-> H'].
  { destruct H as [[k Hk]|[k Hk]]; simpl in Hk; injection Hk as -> ->;
      (split; [done|]); [left|right]; by exists k. }
  rewrite N.ltb_irrefl. by apply IH.
Qed.

Lemma highest_loop_strings vs st :
  highest_loop (Some <$> vs) st = Ok (snd <$> foldl highest_step st vs).
Proof. revert st. induction vs as [|v vs IH]; intros st; simpl; [done|apply IH]. Qed.

Lemma highest_step_ok vs st v :
  state_ok vs st -> v ∈ vs -> state_ok vs (highest_step st v).
Proof.
  intros Hst Hv. unfold highest_step.
  destruct (tokens v) as [|x xs] eqn:Ht; [done|].
  destruct st as [[hv hs]|].
  - destruct (beats hv (x :: xs)); [|done].
    intros ? ? [= <- <-]. by rewrite Ht.
  - intros ? ? [= <- <-]. by rewrite Ht.
Qed.

Lemma foldl_highest_step_ok vs0 vs st :
  state_ok vs0 st -> (forall v, v ∈ vs -> v ∈ vs0) ->
  state_ok vs0 (foldl highest_step st vs).
Proof.
  revert st. induction vs as [|v vs IH]; intros st Hst Hin; simpl; [done|].
  apply IH.
  - apply highest_step_ok; [done|]. apply Hin. by left.
  - intros w Hw. apply Hin. by right.
Qed.

Lemma foldl_highest_step_stable vs st :
  (forall v, v ∈ vs -> highest_step st v = st) ->
  foldl highest_step st vs = st.
Proof.
  induction vs as [|v vs IH]; intros H; simpl; [done|].
  rewrite (H v) by by left. apply IH. intros w Hw. apply H. by right.
Qed.


End Highest.

(** ** The result of [get_highest_version] *)

Section HighestResult.

Implicit Types (hv c u : list N) (vs seen : list str)
  (st : option (list N * str)).

(** Once a candidate has replaced the best, nothing that did not beat the
    old best beats the new one. *)
Lemma beats_after_replace hv c u :
  beats hv c = true -> beats hv u = false -> beats c u = false.
Proof.
  revert c u. induction hv as [|h hs IH]; intros [|x xs] [|y ys]; simpl;
    try done.
  destruct (N.ltb_spec h x) as [Hhx|Hhx].
  - intros _. destruct (N.ltb_spec h y) as [?|Hhy]; [done|]. intros _.
    destruct (N.ltb_spec x y) as [?|_]; [lia|].
    by destruct (N.ltb_spec y x) as [_|?]; [|lia].
  - destruct (N.ltb_spec x h) as [?|Hxh]; [done|]. assert (h = x) as -> by lia.
    intros Hc. destruct (N.ltb_spec x y) as [?|Hxy]; [done|].
    destruct (N.ltb_spec y x) as [?|Hyx]; [done|]. by apply IH.
Qed.

Lemma beats_irrefl hv : beats hv hv = false.
Proof. apply beats_prefix. by left. Qed.

Lemma beats_nil_r hv : beats hv [] = false.
Proof. by destruct hv. Qed.

Lemma highest_step_unbeaten seen st (v : str) :
  unbeaten seen st -> unbeaten (seen ++ [v]) (highest_step st v).
Proof.
  intros Hst. unfold highest_step.
  destruct (tokens v) as [|x xs] eqn:Ht.
  - destruct st as [[hv hs]|]; cbv [unbeaten] in *;
      intros u [Hu|Hu]%elem_of_app; auto;
      apply list_elem_of_singleton in Hu as ->; rewrite Ht;
      [apply beats_nil_r|done].
  - destruct st as [[hv hs]|].
    + destruct (beats hv (x :: xs)) eqn:Hb; cbv [unbeaten] in *.
      * intros u [Hu|Hu]%elem_of_app.
        -- eapply beats_after_replace; [done|]. by apply Hst.
        -- apply list_elem_of_singleton in Hu as ->. rewrite Ht.
           apply beats_irrefl.
      * intros u [Hu|Hu]%elem_of_app; [by apply Hst|].
        apply list_elem_of_singleton in Hu as ->. by rewrite Ht.
    + cbv [unbeaten] in *. intros u [Hu|Hu]%elem_of_app.
      * rewrite (Hst u Hu). apply beats_nil_r.
      * apply list_elem_of_singleton in Hu as ->. rewrite Ht.
        apply beats_irrefl.
Qed.

Lemma foldl_highest_step_unbeaten seen vs st :
  unbeaten seen st -> unbeaten (seen ++ vs) (foldl highest_step st vs).
Proof.
  revert seen st. induction vs as [|v vs IH]; intros seen st Hst; simpl.
  - by rewrite app_nil_r.
  - rewrite (cons_middle v seen vs), app_assoc. apply IH.
    by apply highest_step_unbeaten.
Qed.

Lemma tokens_nil_no_digit (v : str) : tokens v = [] <-> no_digit v.
Proof.
  split; [|apply tokens_no_digit]. unfold tokens. intros H.
  apply fmap_nil_inv in H. pose proof (findall_digits_runs v) as Hr.
  rewrite H in Hr. by inversion Hr.
Qed.

Lemma highest_step_Some hv (hs v : str) : is_Some (highest_step (Some (hv, hs)) v).
Proof.
  unfold highest_step. destruct (tokens v); [done|]. by destruct (beats _ _).
Qed.

Lemma foldl_highest_step_None vs st :
  foldl highest_step st vs = None <->
  st = None /\ forall v, v ∈ vs -> tokens v = [].
Proof.
  revert st. induction vs as [|v vs IH]; intros st; simpl.
  - split; [intros ->; split; [done|by intros v ?%elem_of_nil]|by intros [-> _]].
  - rewrite IH. split.
    + intros [Hstep Hvs]. destruct st as [[hv hs]|].
      { by destruct (highest_step_Some hv hs v) as [? ?]; congruence. }
      split; [done|]. intros u [->|Hu]%elem_of_cons; [|by apply Hvs].
      unfold highest_step in Hstep. by destruct (tokens v).
    + intros [-> Hvs]. split.
      * unfold highest_step. by rewrite (Hvs v) by by left.
      * intros u Hu. apply Hvs. by right.
Qed.

Lemma highest_loop_None_value (vs : list (option str)) st :
  None ∈ vs -> highest_loop vs st = Err TypeError.
Proof.
  revert st. induction vs as [|[v|] vs IH]; intros st Hin; simpl.
  - by apply elem_of_nil in Hin.
  - apply IH. by apply elem_of_cons in Hin as [?|?].
  - done.
Qed.

Lemma all_strings (vs : list (option str)) :
  None ∉ vs -> exists ss : list str, vs = Some <$> ss.
Proof.
  induction vs as [|[v|] vs IH]; intros Hn.
  - by exists [].
  - destruct IH as [ss ->]; [by intros ?; apply Hn; right|]. by exists (v :: ss).
  - destruct Hn. by left.
Qed.

(** The result after one more entry, from the result before it. *)
Lemma foldl_highest_step_snoc vs0 vs (v : str) :
  (forall x : str, x ∈ vs -> x ∈ vs0) ->
  snd <$> foldl highest_step None (vs ++ [v])
    = scan_step (snd <$> foldl highest_step None vs) v.
Proof.
  intros Hin. rewrite foldl_app. simpl.
  assert (Hok : state_ok vs0 (foldl highest_step None vs)).
  { by apply foldl_highest_step_ok. }
  destruct (foldl highest_step None vs) as [[hv hs]|]; simpl.
  - destruct (Hok hv hs eq_refl) as (-> & _ & _). unfold highest_step.
    destruct (tokens v) as [|x xs] eqn:Ht; [by rewrite beats_nil_r|].
    by destruct (beats (tokens hs) (x :: xs)).
  - unfold highest_step. destruct (tokens v) as [|x xs] eqn:Ht.
    + by destruct (decide ([] = [])).
    + by destruct (decide (x :: xs = [])).
Qed.

Lemma get_highest_version_snoc (m : list (str * str)) (k v : str) :
  get_highest_version (of_strings (m ++ [(k, v)]))
    = Ok (scan_step (snd <$> foldl highest_step None m.*2) v).
Proof.
  unfold get_highest_version.
  rewrite values_of_strings, highest_loop_strings, fmap_app. simpl.
  f_equal. by apply (foldl_highest_step_snoc m.*2).
Qed.

End HighestResult.

(** C1. [get_highest_version] tokenizes every string into its maximal runs
    of decimal digits, read as integers; a candidate replaces the current
    best exactly when its number is larger at the first position where the
    two vectors differ (10 beats 9).  The result is that of a scan of the
    values in their order: [None] for the empty mapping; with one more
    value, that value when it has a token and either there was no result
    yet or its vector beats that of the result so far, and the result so
    far otherwise.  So the result is one of the original strings, it has a
    token, and no value of the mapping beats it.  For
    [{a.txt: 1.2.0, b.txt: 1.3.0}] the result is [1.3.0]; when no string has
    a digit the result is [None].  The function returns on the strings
    whose digit runs [int] converts ([int_ok]). *)
Theorem get_highest_version_spec :
  (forall v : str,
     digit_runs v (Py.findall_digits v) /\
     (forall rs, digit_runs v rs -> rs = Py.findall_digits v) /\
     tokens v = Py.int <$> Py.findall_digits v) /\
  tokens (py "v1.20.003-rc4") = [1; 20; 3; 4]%N /\
  (forall hv v_arr : list N,
     beats hv v_arr = true <->
     exists (i : nat) (h x : N),
       hv !! i = Some h /\ v_arr !! i = Some x /\
       take i hv = take i v_arr /\ (h < x)%N) /\
  (forall (hv : list N) (hs v : str),
     tokens v <> [] ->
     highest_step (Some (hv, hs)) v =
       if beats hv (tokens v) then Some (tokens v, v) else Some (hv, hs)) /\
  beats (tokens (py "9")) (tokens (py "10")) = true /\
  get_highest_version (of_strings [(py "x", py "9"); (py "y", py "10")])
    = Ok (Some (py "10")) /\
  get_highest_version (of_strings []) = Ok None /\
  (forall (m : list (str * str)) (k v : str),
     (forall u, u ∈ m.*2 -> int_ok u) -> int_ok v ->
     exists r : option str,
       get_highest_version (of_strings m) = Ok r /\
       get_highest_version (of_strings (m ++ [(k, v)])) =
         Ok (match r with
             | None => if decide (tokens v = []) then None else Some v
             | Some s =>
                 if beats (tokens s) (tokens v) then Some v else Some s
             end)) /\
  (forall m : list (str * str),
     (forall u, u ∈ m.*2 -> int_ok u) ->
     exists r : option str,
       get_highest_version (of_strings m) = Ok r /\
       forall s, r = Some s ->
         s ∈ m.*2 /\ tokens s <> [] /\
         forall u, u ∈ m.*2 -> beats (tokens s) (tokens u) = false) /\
  get_highest_version
    (of_strings [(py "a.txt", py "1.2.0"); (py "b.txt", py "1.3.0")])
    = Ok (Some (py "1.3.0")) /\
  (forall m : list (str * str),
     (forall v, v ∈ m.*2 -> no_digit v) ->
     get_highest_version (of_strings m) = Ok None).
Proof.
  split_and!; try done.
  - intros v. split_and!; [apply findall_digits_runs | apply digit_runs_unique | done].
  - apply beats_spec.
  - intros hv hs v Hne. unfold highest_step. by destruct (tokens v).
  - intros m k v _ _. eexists. split.
    + unfold get_highest_version.
      by rewrite values_of_strings, highest_loop_strings.
    + apply get_highest_version_snoc.
  - intros m _. unfold get_highest_version.
    rewrite values_of_strings, highest_loop_strings.
    eexists. split; [done|]. intros s Hs.
    assert (Hok : state_ok m.*2 (foldl highest_step None m.*2)).
    { by apply foldl_highest_step_ok. }
    assert (Hun : unbeaten ([] ++ m.*2) (foldl highest_step None m.*2)).
    { apply foldl_highest_step_unbeaten. by intros u ?%elem_of_nil. }
    destruct (foldl highest_step None m.*2) as [[hv hs]|]; [|done].
    injection Hs as <-. destruct (Hok hv hs eq_refl) as (-> & Hne & Hin).
    split_and!; [done|done|]. intros u Hu. by apply Hun.
  - intros m Hno. unfold get_highest_version.
    rewrite values_of_strings, highest_loop_strings.
    rewrite foldl_highest_step_stable; [done|].
    intros v Hv. unfold highest_step. by rewrite tokens_no_digit by auto.
Qed.

Lemma get_highest_version_spec_witness :
  (exists r : option str,
     get_highest_version
       (of_strings [(py "a.txt", py "1.9"); (py "b.txt", py "beta")]) = Ok r /\
     get_highest_version
       (of_strings [(py "a.txt", py "1.9"); (py "b.txt", py "beta");
                    (py "c.txt", py "1.10")])
       = Ok (match r with
             | None =>
                 if decide (tokens (py "1.10") = []) then None
                 else Some (py "1.10")
             | Some s =>
                 if beats (tokens s) (tokens (py "1.10")) then Some (py "1.10")
                 else Some s
             end)) /\
  get_highest_version (of_strings [(py "a.txt", py "beta"); (py "b.txt", [])])
    = Ok None.
Proof.
  split.
  - apply (proj1 (proj2 (proj2 (proj2 (proj2 (proj2 (proj2 (proj2
             get_highest_version_spec))))))))
      with (m := [(py "a.txt", py "1.9"); (py "b.txt", py "beta")])
           (k := py "c.txt") (v := py "1.10").
    + intros u Hu. simpl in Hu.
      apply elem_of_cons in Hu as [->|Hu];
        [|apply list_elem_of_singleton in Hu as ->];
        apply (bool_decide_unpack _); vm_compute; reflexivity.
    + apply (bool_decide_unpack _). vm_compute. reflexivity.
  - apply get_highest_version_spec. intros v Hv. simpl in Hv.
    apply elem_of_cons in Hv as [->|Hv];
      [|apply list_elem_of_singleton in Hv as ->].
    + by repeat constructor.
    + by constructor.
Defined.



(** ** [str.find] *)

Section Find.

Implicit Types (s sub : str) (i j : nat).

Lemma starts_with_prefix sub s :
  Py.starts_with sub s = true <-> sub `prefix_of` s.
Proof.
  revert s. induction sub as [|a sub IH]; intros [|b s]; simpl.
  - split; [intros _; by exists []|done].
  - split; [intros _; by eexists|done].
  - split; [done|]. by intros [k Hk].
  - destruct (decide (a = b)) as [->|Hne].
    + rewrite IH. split.
      * by apply prefix_cons.
      * by intros H%prefix_cons_inv_2.
    + split; [done|]. by intros H%prefix_cons_inv_1.
Qed.

Lemma starts_with_false sub s :
  Py.starts_with sub s = false <-> ~ sub `prefix_of` s.
Proof.
  rewrite <- starts_with_prefix. by destruct (Py.starts_with sub s).
Qed.

Lemma search_None sub s i :
  Py.search sub s i = None <-> forall j, ~ sub `prefix_of` drop j s.
Proof.
  revert i. induction s as [|c s IH]; intros i; simpl.
  - destruct (Py.starts_with sub []) eqn:E.
    + apply starts_with_prefix in E. split; [done|].
      intros H. by destruct (H 0%nat).
    + apply starts_with_false in E. split; [|done].
      intros _ j. by rewrite drop_nil.
  - destruct (Py.starts_with sub (c :: s)) eqn:E.
    + apply starts_with_prefix in E. split; [done|].
      intros H. by destruct (H 0%nat).
    + apply starts_with_false in E. rewrite IH. split.
      * intros H [|j]; [done|]. apply H.
      * intros H j. apply (H (S j)).
Qed.

Lemma search_Some sub s i r :
  Py.search sub s i = Some r ->
  exists j, r = (i + j)%nat /\ (j <= length s)%nat /\
    sub `prefix_of` drop j s /\
    forall j', (j' < j)%nat -> ~ sub `prefix_of` drop j' s.
Proof.
  revert i. induction s as [|c s IH]; intros i; simpl.
  - destruct (Py.starts_with sub []) eqn:E; [|done].
    intros [= <-]. exists 0%nat. apply starts_with_prefix in E.
    split_and!; [lia|done|done|lia].
  - destruct (Py.starts_with sub (c :: s)) eqn:E.
    + intros [= <-]. exists 0%nat. apply starts_with_prefix in E.
      split_and!; [lia|simpl; lia|done|lia].
    + intros (j & -> & Hj & Hp & Hmin)%IH. exists (S j).
      split_and!; [lia|simpl; lia|done|].
      intros [|j'] Hlt; [by apply starts_with_false|].
      apply Hmin. lia.
Qed.

Lemma occurs_at_drop sub s i j :
  (i <= length s)%nat ->
  ((j <= length (drop i s))%nat /\ sub `prefix_of` drop j (drop i s)) <->
  occurs_at sub s (i + j).
Proof.
  intros Hi. unfold occurs_at. rewrite drop_drop, length_drop.
  split; intros [? ?]; (split; [lia|done]).
Qed.

(** [find] returns [-1] exactly when there is no occurrence at or after
    the start index. *)
Lemma find_none s sub start :
  Py.find s sub start = (-1)%Z <->
  forall i, (start_index s start <= Z.of_nat i)%Z -> ~ occurs_at sub s i.
Proof.
  unfold Py.find. fold (start_index s start).
  assert (Hst : (0 <= start_index s start)%Z).
  { unfold start_index. destruct (Z.ltb_spec start 0); lia. }
  set (st := start_index s start) in *. unfold Py.len.
  destruct (Z.ltb_spec (Z.of_nat (length s)) st) as [Hlt|Hge].
  - split; [|done]. intros _ i Hi [Hle _]. lia.
  - destruct (Py.search sub (drop (Z.to_nat st) s) (Z.to_nat st)) as [r|] eqn:E.
    + split; [lia|]. intros H. exfalso.
      apply search_Some in E as (j & -> & Hj & Hp & _).
      apply (H (Z.to_nat st + j)%nat); [lia|].
      apply occurs_at_drop; [lia|done].
    + split; [|done]. intros _ i Hi [Hle Hp].
      rewrite search_None in E. apply (E (i - Z.to_nat st)%nat).
      rewrite drop_drop. by replace (Z.to_nat st + (i - Z.to_nat st))%nat with i by lia.
Qed.

(** Otherwise it returns the lowest such index. *)
Lemma find_some s sub start r :
  Py.find s sub start = r -> r <> (-1)%Z ->
  exists i, r = Z.of_nat i /\ (start_index s start <= r)%Z /\
    occurs_at sub s i /\
    forall j, (start_index s start <= Z.of_nat j)%Z -> (j < i)%nat ->
              ~ occurs_at sub s j.
Proof.
  unfold Py.find. fold (start_index s start).
  assert (Hst : (0 <= start_index s start)%Z).
  { unfold start_index. destruct (Z.ltb_spec start 0); lia. }
  set (st := start_index s start) in *. unfold Py.len.
  destruct (Z.ltb_spec (Z.of_nat (length s)) st) as [Hlt|Hge]; [congruence|].
  destruct (Py.search sub (drop (Z.to_nat st) s) (Z.to_nat st)) as [r'|] eqn:E;
    [|congruence].
  intros <- _. apply search_Some in E as (j & -> & Hj & Hp & Hmin).
  exists (Z.to_nat st + j)%nat. split_and!; [done|lia| |].
  - apply occurs_at_drop; [lia|done].
  - intros j' Hj' Hlt [_ Hp']. apply (Hmin (j' - Z.to_nat st)%nat); [lia|].
    rewrite drop_drop. by replace (Z.to_nat st + (j' - Z.to_nat st))%nat with j' by lia.
Qed.

(** The lowest occurrence at or after the start index is what [find]
    returns. *)
Lemma find_lowest s sub start i :
  (start_index s start <= Z.of_nat i)%Z ->
  occurs_at sub s i ->
  (forall j, (start_index s start <= Z.of_nat j)%Z -> (j < i)%nat ->
             ~ occurs_at sub s j) ->
  Py.find s sub start = Z.of_nat i.
Proof.
  intros Hi Hocc Hmin.
  destruct (decide (Py.find s sub start = (-1)%Z)) as [Hnone|Hsome].
  - rewrite find_none in Hnone. by destruct (Hnone i).
  - destruct (find_some s sub start _ eq_refl Hsome)
      as (i' & Hr & Hst & Hocc' & Hmin').
    rewrite Hr. f_equal.
    destruct (lt_eq_lt_dec i i') as [[Hlt| ->]|Hgt]; [|done|].
    + by destruct (Hmin' i).
    + destruct (Hmin i'); [lia|done|done].
Qed.

End Find.

(** ** Slices with bounds that are not negative *)

Section Slices.

Context {A : Type}.
Implicit Types (s : list A).

Lemma slice_to_nonneg s (p : Z) :
  (0 <= p)%Z -> Py.slice_to s p = take (Z.to_nat p) s.
Proof.
  intros Hp. unfold Py.slice_to, Py.adjust, Py.len.
  destruct (Z.ltb_spec p 0) as [?|_]; [lia|].
  destruct (Z.le_gt_cases p (Z.of_nat (length s))) as [Hle|Hgt].
  - by rewrite Z.min_l.
  - rewrite Z.min_r, Nat2Z.id by lia. rewrite !take_ge; [done|lia|lia].
Qed.

Lemma slice_from_nonneg s (e : Z) :
  (0 <= e)%Z -> Py.slice_from s e = drop (Z.to_nat e) s.
Proof.
  intros He. unfold Py.slice_from, Py.adjust, Py.len.
  destruct (Z.ltb_spec e 0) as [?|_]; [lia|].
  destruct (Z.le_gt_cases e (Z.of_nat (length s))) as [Hle|Hgt].
  - by rewrite Z.min_l.
  - rewrite Z.min_r, Nat2Z.id by lia. rewrite !drop_ge; [done|lia|lia].
Qed.

Lemma slice_nonneg s (lo hi : Z) :
  (0 <= lo)%Z -> (0 <= hi)%Z ->
  Py.slice s lo hi = take (Z.to_nat hi - Z.to_nat lo) (drop (Z.to_nat lo) s).
Proof.
  intros Hlo Hhi. unfold Py.slice, Py.adjust, Py.len.
  destruct (Z.ltb_spec lo 0) as [?|_]; [lia|].
  destruct (Z.ltb_spec hi 0) as [?|_]; [lia|].
  destruct (Z.le_gt_cases lo (Z.of_nat (length s))) as [Hle|Hgt].
  - rewrite (Z.min_l lo) by done.
    destruct (Z.le_gt_cases hi (Z.of_nat (length s))) as [Hle'|Hgt'].
    + rewrite Z.min_l by done. f_equal. lia.
    + rewrite Z.min_r by lia. rewrite !take_ge; [done| |];
        rewrite length_drop; lia.
  - rewrite (Z.min_r lo), Nat2Z.id by lia.
    rewrite !drop_ge by lia. by rewrite !take_nil.
Qed.

(** [s[lo:-1]]: everything from [lo] on but the last element. *)
Lemma slice_minus_one s (lo : Z) :
  (0 <= lo)%Z ->
  Py.slice s lo (-1) = take (length s - 1 - Z.to_nat lo) (drop (Z.to_nat lo) s).
Proof.
  intros Hlo. unfold Py.slice, Py.adjust, Py.len.
  destruct (Z.ltb_spec lo 0) as [?|_]; [lia|]. simpl.
  destruct (Z.le_gt_cases lo (Z.of_nat (length s))) as [Hle|Hgt].
  - rewrite Z.min_l by done. f_equal. lia.
  - rewrite Z.min_r, Nat2Z.id by lia.
    rewrite !drop_ge by lia. by rewrite !take_nil.
Qed.

End Slices.

(** ** Extraction: [get_version_str] *)

Section Extraction.

Implicit Types (lines : list str) (line text file : str)
  (ln pos i : Z) (w : world).

(** The loop stops at the line of 0-based index [ln - 1], if any. *)
Lemma get_version_lines_lookup lines i ln pos (end_ : str) :
  get_version_lines lines i ln pos end_ =
    if (i <=? ln - 1)%Z
    then version_in_line pos end_ <$> lines !! Z.to_nat (ln - 1 - i)
    else None.
Proof.
  revert i. induction lines as [|line rest IH]; intros i; simpl.
  - by destruct (i <=? ln - 1)%Z.
  - destruct (Z.eqb_spec i (ln - 1)) as [->|Hne].
    + rewrite Z.leb_refl, Z.sub_diag. simpl. unfold version_in_line.
      by destruct (Py.truthy end_).
    + rewrite IH. destruct (Z.leb_spec i (ln - 1)) as [Hle|Hgt].
      * destruct (Z.leb_spec (i + 1) (ln - 1)) as [_|?]; [|lia].
        replace (Z.to_nat (ln - 1 - i)) with (S (Z.to_nat (ln - 1 - (i + 1))))
          by lia.
        done.
      * by destruct (Z.leb_spec (i + 1) (ln - 1)) as [?|_]; [lia|].
Qed.

Lemma get_version_str_eq file ln pos (end_ : str) w text :
  files w !! file = Some text ->
  get_version_str file ln pos end_ w
    = Ret (get_version_lines (Py.readlines text) 0 ln pos end_) w.
Proof.
  intros Hf. unfold get_version_str, mbind, M_bind, bind, read_text.
  by rewrite Hf.
Qed.

Lemma get_version_str_missing file ln pos (end_ : str) w :
  files w !! file = None ->
  get_version_str file ln pos end_ w = Raise FileNotFoundError w.
Proof.
  intros Hf. unfold get_version_str, mbind, M_bind, bind, read_text.
  by rewrite Hf.
Qed.

Lemma set_version_str_eq file ln pos (end_ : str) version w text :
  files w !! file = Some text ->
  set_version_str file ln pos end_ version w =
    match set_version_lines (Py.readlines text) ln pos end_ version with
    | Ok lines =>
        Ret tt (World (<[file := Py.universal_newlines (Py.writelines lines)]>
                         (files w)) (stdout w))
    | Err e => Raise e w
    end.
Proof.
  intros Hf. unfold set_version_str, mbind, M_bind, bind, read_text.
  rewrite Hf.
  by destruct (set_version_lines (Py.readlines text) ln pos end_ version).
Qed.

End Extraction.

(** C4. Extraction with a line number beyond the last line of the file
    raises nothing: the loop of [get_version_str] runs out of lines and the
    function returns [None].  Rewriting at the same location does raise
    ([IndexError]). *)
Theorem extraction_past_last_line :
  forall (file text end_ : str) (ln pos : Z) (version : option str) (w : world),
    files w !! file = Some text ->
    (Py.len (Py.readlines text) < ln)%Z ->
    get_version_str file ln pos end_ w = Ret None w /\
    set_version_str file ln pos end_ version w = Raise IndexError w.
Proof.
  intros file text end_ ln pos version w Hf Hln. split.
  - rewrite (get_version_str_eq _ _ _ _ _ text Hf), get_version_lines_lookup.
    destruct (Z.leb_spec 0 (ln - 1)) as [_|?]; [|done].
    rewrite lookup_ge_None_2; [done|]. unfold Py.len in Hln. lia.
  - rewrite (set_version_str_eq _ _ _ _ _ _ text Hf).
    unfold set_version_lines, list_index.
    destruct (Z.ltb_spec (ln - 1) 0) as [?|_]; [unfold Py.len in *; lia|].
    destruct (Z.ltb_spec (ln - 1) (Py.len (Py.readlines text))) as [?|_]; [lia|].
    by rewrite andb_false_r.
Qed.

Lemma extraction_past_last_line_witness :
  let w := World {[ py "a.txt" := py "v=1.0" ++ [Py.newline] ]} [] in
  get_version_str (py "a.txt") 2 2 [] w = Ret None w /\
  set_version_str (py "a.txt") 2 2 [] (Some (py "1.1")) w = Raise IndexError w.
Proof.
  intros w.
  apply (extraction_past_last_line (py "a.txt") (py "v=1.0" ++ [Py.newline]));
    [reflexivity | vm_compute; reflexivity].
Defined.

(** A line number beyond the last line can go unnoticed by a whole run:
    the [None] that extraction returns is taken by [versions_match] for
    "no baseline yet". *)
Example past_last_line_run_reports_match :
  let w := World {[ py "a.txt" := py "v=0.9" ++ [Py.newline];
                    py "b.txt" := py "v=1.0" ++ [Py.newline] ]} [] in
  process_config
    [(py "pkg", [FileConfig (py "a.txt") 7 2 []; FileConfig (py "b.txt") 1 2 []])]
    false w
  = Ret true (World (files w) [py "All versions match"]).
Proof. reflexivity. Qed.

(** C7. Without a terminator, extraction returns the line from the column
    on with its last character removed, whatever that character is: on a
    last line [version=1.0] that has no newline, column 8 yields [1.] and
    not [1.0]. *)
Theorem extraction_drops_last_character :
  (forall (file text line : str) (ln pos : Z) (w : world),
     files w !! file = Some text ->
     (1 <= ln)%Z -> (0 <= pos)%Z ->
     Py.readlines text !! Z.to_nat (ln - 1) = Some line ->
     get_version_str file ln pos [] w
       = Ret (Some (take (length line - 1 - Z.to_nat pos)
                      (drop (Z.to_nat pos) line))) w) /\
  (let w := World {[ py "b.txt" := py "version=1.0" ]} [] in
   get_version_str (py "b.txt") 1 8 [] w = Ret (Some (py "1.")) w).
Proof.
  split; [|reflexivity].
  intros file text line ln pos w Hf Hln Hpos Hline.
  rewrite (get_version_str_eq _ _ _ _ _ text Hf), get_version_lines_lookup.
  destruct (Z.leb_spec 0 (ln - 1)) as [_|?]; [|lia].
  rewrite Z.sub_0_r, Hline. simpl. unfold version_in_line. simpl.
  by rewrite slice_minus_one.
Qed.

Lemma extraction_drops_last_character_witness :
  let w := World {[ py "b.txt" := py "x" ++ [Py.newline] ++ py "version=1.0" ]} [] in
  get_version_str (py "b.txt") 2 8 [] w = Ret (Some (py "1.")) w.
Proof.
  intros w.
  apply (proj1 extraction_drops_last_character (py "b.txt")
           (py "x" ++ [Py.newline] ++ py "version=1.0") (py "version=1.0"));
    [reflexivity | lia | lia | reflexivity].
Defined.

(** ** Rewriting: [set_version_str] *)

Section Rewriting.

Implicit Types (lines : list str) (line text file new_line v : str)
  (ln pos : Z) (k : nat) (w : world).

Lemma list_index_Some {A} (l : list A) (i : Z) k :
  list_index l i = Some k ->
  (k < length l)%nat /\
  ((0 <= i)%Z /\ k = Z.to_nat i \/
   (i < 0)%Z /\ Z.of_nat k = (i + Py.len l)%Z).
Proof.
  unfold list_index, Py.len. destruct (Z.ltb_spec i 0) as [Hneg|Hpos].
  - destruct (Z.leb_spec 0 (i + Z.of_nat (length l))) as [H0|?]; [|done].
    destruct (Z.ltb_spec (i + Z.of_nat (length l)) (Z.of_nat (length l)));
      [|done].
    intros [= <-]. split; [lia|]. right. lia.
  - destruct (Z.leb_spec 0 i) as [_|?]; [|lia].
    destruct (Z.ltb_spec i (Z.of_nat (length l))); [|done].
    intros [= <-]. split; [lia|]. left. lia.
Qed.

Lemma list_index_in_range {A} (l : list A) (n : Z) :
  (1 <= n <= Py.len l)%Z -> list_index l (n - 1) = Some (Z.to_nat (n - 1)).
Proof.
  intros Hn. unfold list_index.
  destruct (Z.ltb_spec (n - 1) 0) as [?|_]; [lia|].
  destruct (Z.leb_spec 0 (n - 1)) as [_|?]; [|lia].
  by destruct (Z.ltb_spec (n - 1) (Py.len l)) as [_|?]; [|lia].
Qed.

Lemma list_index_selected lines ln k line :
  list_index lines (ln - 1) = Some k -> lines !! k = Some line ->
  selected_line lines ln line.
Proof.
  intros Hk Hline. exists k. split; [done|].
  apply list_index_Some in Hk as [_ [[? ->]|[? ?]]]; [left|right]; lia.
Qed.

(** The text around line [k]. *)
Lemma concat_around lines k line :
  lines !! k = Some line ->
  concat lines = concat (take k lines) ++ line ++ concat (drop (S k) lines).
Proof.
  intros Hk. rewrite <- (take_drop_middle lines k line Hk) at 1.
  by rewrite concat_app, concat_cons.
Qed.

Lemma concat_insert lines k new_line :
  (k < length lines)%nat ->
  concat (<[k := new_line]> lines)
    = concat (take k lines) ++ new_line ++ concat (drop (S k) lines).
Proof.
  intros Hk. rewrite insert_take_drop by done.
  by rewrite concat_app, concat_cons.
Qed.

(** What [set_version_str] puts in place of [line]. *)
Lemma set_version_lines_eq lines ln pos (end_ : str) v k line :
  list_index lines (ln - 1) = Some k -> lines !! k = Some line ->
  set_version_lines lines ln pos end_ (Some v) =
    Ok (<[k := Py.slice_to line pos ++ v ++
               (if Py.truthy end_ && negb (Py.find line end_ pos =? -1)%Z
                then Py.slice_from line (Py.find line end_ pos)
                else [Py.newline])]> lines).
Proof.
  intros Hk Hline. unfold set_version_lines. rewrite Hk, Hline. simpl.
  destruct (Py.truthy end_); simpl.
  - destruct (Py.find line end_ pos =? -1)%Z; simpl; by rewrite <- app_assoc.
  - by rewrite <- app_assoc.
Qed.

End Rewriting.

(** C6. When the terminator does not occur in the selected line at or
    after the column, extraction returns what it returns without a
    terminator, and rewriting leaves what it leaves without a terminator. *)
Theorem fallback_consistent :
  forall (file end_ : str) (ln pos : Z) (version : option str) (w : world),
    (forall (text line : str) (i : nat),
       files w !! file = Some text ->
       selected_line (Py.readlines text) ln line ->
       (start_index line pos <= Z.of_nat i)%Z ->
       ~ occurs_at end_ line i) ->
    get_version_str file ln pos end_ w = get_version_str file ln pos [] w /\
    set_version_str file ln pos end_ version w
      = set_version_str file ln pos [] version w.
Proof.
  intros file end_ ln pos version w Hno.
  destruct (files w !! file) as [text|] eqn:Hf.
  - assert (Hfind : forall line, selected_line (Py.readlines text) ln line ->
                      Py.find line end_ pos = (-1)%Z).
    { intros line Hsel. apply find_none. intros i. by apply (Hno text). }
    split.
    + rewrite !(get_version_str_eq _ _ _ _ _ text Hf), !get_version_lines_lookup.
      destruct (Z.leb_spec 0 (ln - 1)) as [Hle|?]; [|done].
      destruct (Py.readlines text !! Z.to_nat (ln - 1 - 0)) as [line|] eqn:Hl;
        [|done].
      simpl. do 2 f_equal. unfold version_in_line.
      rewrite Hfind; [by destruct (Py.truthy end_)|].
      exists (Z.to_nat (ln - 1 - 0)). split; [done|]. left. lia.
    + rewrite !(set_version_str_eq _ _ _ _ _ _ text Hf).
      unfold set_version_lines.
      destruct (list_index (Py.readlines text) (ln - 1)) as [k|] eqn:Hk; [|done].
      destruct (Py.readlines text !! k) as [line|] eqn:Hl.
      * simpl. rewrite (Hfind line) by by eapply list_index_selected.
        by destruct (Py.truthy end_).
      * apply list_index_Some in Hk as [Hk _].
        apply lookup_ge_None in Hl. lia.
  - split.
    + by rewrite !get_version_str_missing.
    + unfold set_version_str, mbind, M_bind, bind, read_text. by rewrite Hf.
Qed.

Lemma fallback_consistent_witness :
  let w := World {[ py "a.txt" := py "v=1.0;" ++ [Py.newline] ++ py "w=2.0" ]} [] in
  get_version_str (py "a.txt") 2 2 (py ";") w
    = get_version_str (py "a.txt") 2 2 [] w /\
  set_version_str (py "a.txt") 2 2 (py ";") (Some (py "2.1")) w
    = set_version_str (py "a.txt") 2 2 [] (Some (py "2.1")) w.
Proof.
  intros w. apply fallback_consistent.
  intros text line i Hf (k & Hline & Hk) Hi. simpl in Hf.
  rewrite lookup_singleton_eq in Hf. injection Hf as <-.
  change (Py.readlines _) with [py "v=1.0;" ++ [Py.newline]; py "w=2.0"]
    in Hline, Hk.
  unfold Py.len in Hk. simpl length in Hk.
  assert (k = 1%nat) as ->.
  { apply lookup_lt_Some in Hline. simpl length in Hline. lia. }
  injection Hline as <-.
  revert i Hi. by apply find_none.
Defined.

(** ** Lines of a text *)

Section Lines.

Implicit Types (text body l : str) (ls : list str).

Lemma concat_readlines text : concat (Py.readlines text) = text.
Proof.
  induction text as [|c text IH]; simpl; [done|].
  destruct (decide (c = Py.newline)) as [->|Hc]; simpl; [by rewrite IH|].
  destruct (Py.readlines text) as [|l ls]; simpl in *; by rewrite <- IH.
Qed.

Lemma readlines_body body :
  Py.newline ∉ body -> body <> [] -> Py.readlines body = [body].
Proof.
  induction body as [|c body IH]; intros Hnl Hne; [done|]. simpl.
  apply not_elem_of_cons in Hnl as [Hc Hnl].
  destruct (decide (c = Py.newline)) as [?|_]; [done|].
  destruct body as [|c' body]; [done|]. by rewrite IH.
Qed.

Lemma readlines_line body text :
  Py.newline ∉ body ->
  Py.readlines (body ++ Py.newline :: text)
    = (body ++ [Py.newline]) :: Py.readlines text.
Proof.
  induction body as [|c body IH]; intros Hnl; simpl.
  - by destruct (decide (Py.newline = Py.newline)).
  - apply not_elem_of_cons in Hnl as [Hc Hnl].
    destruct (decide (c = Py.newline)) as [?|_]; [done|]. by rewrite IH.
Qed.

(** Reading lines that were well formed gives them back. *)
Lemma readlines_concat ls : lines_ok ls -> Py.readlines (concat ls) = ls.
Proof.
  induction ls as [|l ls IH]; [done|]. intros [(body & Hnl & Hl) Hls]. simpl.
  destruct Hl as [->|(Hfin & Hne & ->)].
  - rewrite <- app_assoc. simpl. rewrite readlines_line by done.
    by rewrite IH.
  - apply bool_decide_eq_true in Hfin as ->. simpl. rewrite app_nil_r.
    by apply readlines_body.
Qed.

(** The lines of a text are well formed. *)
Lemma readlines_ok text : lines_ok (Py.readlines text).
Proof.
  induction text as [|c text IH]; simpl; [done|].
  destruct (decide (c = Py.newline)) as [->|Hc].
  - split; [|done]. exists []. split; [by apply not_elem_of_nil|]. by left.
  - destruct (Py.readlines text) as [|l ls]; simpl.
    + split; [|done]. exists [c]. split.
      * by apply not_elem_of_cons; split; [|apply not_elem_of_nil].
      * by right.
    + destruct IH as [(body & Hnl & Hl) Hls]. split; [|done].
      exists (c :: body). split; [by apply not_elem_of_cons|].
      destruct Hl as [->|(Hfin & Hne & ->)]; [by left|by right].
Qed.

Lemma lines_ok_lookup ls (k : nat) l :
  lines_ok ls -> ls !! k = Some l ->
  line_ok (bool_decide (S k = length ls)) l.
Proof.
  revert k. induction ls as [|l' ls IH]; intros k Hok Hk; [done|].
  destruct Hok as [Hl Hls]. destruct k as [|k]; simpl in *.
  - injection Hk as <-.
    replace (bool_decide (1 = S (length ls))%nat)
      with (bool_decide (ls = [])); [done|].
    apply bool_decide_ext. destruct ls; simpl; split; (done || lia).
  - replace (bool_decide (S (S k) = S (length ls)))
      with (bool_decide (S k = length ls)); [by apply IH|].
    apply bool_decide_ext. lia.
Qed.

Lemma lines_ok_insert ls (k : nat) l :
  lines_ok ls -> (k < length ls)%nat ->
  line_ok (bool_decide (S k = length ls)) l ->
  lines_ok (<[k := l]> ls).
Proof.
  revert k. induction ls as [|l' ls IH]; intros k Hok Hk Hl; [done|].
  destruct Hok as [Hl' Hls]. destruct k as [|k]; simpl in *.
  - split; [|done].
    replace (bool_decide (ls = []))
      with (bool_decide (1 = S (length ls))%nat); [done|].
    apply bool_decide_ext. destruct ls; simpl; split; (done || lia).
  - split.
    + replace (bool_decide (<[k:=l]> ls = [])) with (bool_decide (ls = []));
        [done|].
      apply bool_decide_ext. clear. destruct ls, k; naive_solver.
    + apply IH; [done|lia|].
      replace (bool_decide (S k = length ls))
        with (bool_decide (S (S k) = S (length ls))); [done|].
      apply bool_decide_ext. lia.
Qed.

End Lines.

(** ** The text layer and the disk *)

Section Disk.

Implicit Types (raw s t text file : str) (disk : gmap str str)
  (ln pos : Z) (out : list str).

(** Text without carriage return is read as it is. *)
Lemma universal_newlines_id s : Py.cr ∉ s -> Py.universal_newlines s = s.
Proof.
  induction s as [|c s IH]; intros Hcr; [done|].
  apply not_elem_of_cons in Hcr as [Hc Hs]. simpl.
  destruct (decide (c = Py.cr)) as [->|_]; [done|]. by rewrite IH.
Qed.

Lemma universal_newlines_cons (c : ascii) (rest : str) :
  Py.universal_newlines (c :: rest) =
    if decide (c = Py.cr) then
      match rest with
      | d :: rest' =>
          if decide (d = Py.newline)
          then Py.newline :: Py.universal_newlines rest'
          else Py.newline :: Py.universal_newlines rest
      | [] => [Py.newline]
      end
    else c :: Py.universal_newlines rest.
Proof. reflexivity. Qed.

(** What is read has no carriage return. *)
Lemma universal_newlines_no_cr raw : Py.cr ∉ Py.universal_newlines raw.
Proof.
  remember (length raw) as n eqn:Hn. revert raw Hn.
  induction n as [n IH] using lt_wf_ind. intros raw ->.
  destruct raw as [|c rest]; [apply not_elem_of_nil|].
  rewrite universal_newlines_cons.
  destruct (decide (c = Py.cr)) as [->|Hc].
  - destruct rest as [|d rest].
    + apply not_elem_of_cons. split; [done|apply not_elem_of_nil].
    + destruct (decide (d = Py.newline)) as [->|Hd];
        (apply not_elem_of_cons; split; [done|]).
      * apply (IH (length rest)); [simpl; lia|done].
      * apply (IH (length (d :: rest))); [simpl; lia|done].
  - apply not_elem_of_cons. split; [done|].
    apply (IH (length rest)); [simpl; lia|done].
Qed.

Lemma universal_newlines_idemp raw :
  Py.universal_newlines (Py.universal_newlines raw) = Py.universal_newlines raw.
Proof. apply universal_newlines_id, universal_newlines_no_cr. Qed.

Lemma text_layer_lookup disk file :
  text_layer disk !! file = Py.universal_newlines <$> disk !! file.
Proof. apply lookup_fmap. Qed.

Lemma text_layer_no_cr disk file text :
  text_layer disk !! file = Some text -> Py.cr ∉ text.
Proof.
  rewrite text_layer_lookup. destruct (disk !! file) as [raw|]; [|done].
  intros [= <-]. apply universal_newlines_no_cr.
Qed.

(** Extraction reads the disk through the text layer. *)
Lemma get_version_str_text_layer file ln pos (end_ : str) disk out raw :
  disk !! file = Some raw ->
  get_version_str file ln pos end_ (World (text_layer disk) out)
    = Ret (get_version_lines (Py.readlines (Py.universal_newlines raw)) 0
             ln pos end_) (World (text_layer disk) out).
Proof.
  intros Hf. apply get_version_str_eq. simpl.
  by rewrite text_layer_lookup, Hf.
Qed.

(** Rewriting in a world is rewriting on the disk, seen through the text
    layer. *)
Lemma set_version_str_text_layer file ln pos (end_ : str) version disk out :
  set_version_str file ln pos end_ version (World (text_layer disk) out) =
    match set_version_str_disk file ln pos end_ version disk with
    | Ok disk' => Ret tt (World (text_layer disk') out)
    | Err e => Raise e (World (text_layer disk) out)
    end.
Proof.
  unfold set_version_str_disk.
  destruct (disk !! file) as [raw|] eqn:Hf.
  - rewrite (set_version_str_eq _ _ _ _ _ _ (Py.universal_newlines raw))
      by (simpl; by rewrite text_layer_lookup, Hf).
    destruct (set_version_lines _ ln pos end_ version) as [lines|e]; [|done].
    simpl. unfold text_layer. by rewrite fmap_insert.
  - unfold set_version_str, mbind, M_bind, bind, read_text. simpl.
    by rewrite text_layer_lookup, Hf.
Qed.

(** The characters of the rewritten lines: those of the old lines, those
    of the version, and the newline. *)
Lemma set_version_lines_chars (lines lines' : list str) ln pos (end_ v : str)
    (c : ascii) :
  set_version_lines lines ln pos end_ (Some v) = Ok lines' ->
  c ∈ concat lines' -> c ∈ concat lines \/ c ∈ v \/ c = Py.newline.
Proof.
  unfold set_version_lines.
  destruct (list_index lines (ln - 1)) as [k|] eqn:Hk; [|done].
  apply list_index_Some in Hk as [Hk _].
  destruct (lookup_lt_is_Some_2 lines k Hk) as [line Hline].
  rewrite Hline. simpl.
  assert (Hin : forall new_line,
            (forall x, x ∈ new_line -> x ∈ line \/ x ∈ v \/ x = Py.newline) ->
            c ∈ concat (<[k := new_line]> lines) ->
            c ∈ concat lines \/ c ∈ v \/ c = Py.newline).
  { intros new_line Hnew. rewrite concat_insert by done.
    rewrite (concat_around lines k line Hline), !elem_of_app.
    intros [?|[Hc|?]]; [tauto| |tauto].
    destruct (Hnew c Hc) as [?|[?|?]]; tauto. }
  assert (Hto : forall x, x ∈ Py.slice_to line pos -> x ∈ line).
  { intros x. apply subseteq_take. }
  assert (Hfrom : forall x i, x ∈ Py.slice_from line i -> x ∈ line).
  { intros x i. apply subseteq_drop. }
  destruct (negb (Py.truthy end_) || _); intros [= <-]; apply Hin;
    intros x; rewrite !elem_of_app.
  - intros [[Hx%Hto|?]|Hx%list_elem_of_singleton]; tauto.
  - intros [[Hx%Hto|?]|Hx%Hfrom]; tauto.
Qed.

Lemma set_version_lines_no_cr (lines lines' : list str) ln pos (end_ v : str) :
  Py.cr ∉ concat lines -> Py.cr ∉ v ->
  set_version_lines lines ln pos end_ (Some v) = Ok lines' ->
  Py.cr ∉ concat lines'.
Proof.
  intros Hl Hv Hset Hc.
  destruct (set_version_lines_chars _ _ _ _ _ _ _ Hset Hc) as [?|[?|?]]; done.
Qed.

End Disk.

(** C5 as stated fails.  The lines are read with [\r\n] turned into [\n]
    and written back as they were read: rewriting the second line of a file
    whose lines end with [\r\n] changes the first line as well. *)
Lemma rewrite_changes_line_ends :
  (let disk : gmap str str :=
     {[ py "a.toml" := py "name = x" ++ [Py.cr; Py.newline]
                         ++ py "version = 1.0" ++ [Py.cr; Py.newline] ]} in
   set_version_str_disk (py "a.toml") 2 10 [] (Some (py "1.1")) disk
     = Ok {[ py "a.toml" := py "name = x" ++ [Py.newline]
                              ++ py "version = 1.1" ++ [Py.newline] ]}) /\
  ~ (forall (file end_ v raw raw' : str) (ln pos : Z)
            (disk disk' : gmap str str) (j : nat),
       disk !! file = Some raw ->
       set_version_str_disk file ln pos end_ (Some v) disk = Ok disk' ->
       disk' !! file = Some raw' ->
       (1 <= ln)%Z -> Z.of_nat j <> (ln - 1)%Z ->
       Py.readlines raw' !! j = Py.readlines raw !! j).
Proof.
  split; [reflexivity|]. intros H.
  specialize (H (py "a.toml") [] (py "1.1")
                (py "name = x" ++ [Py.cr; Py.newline]
                   ++ py "version = 1.0" ++ [Py.cr; Py.newline])
                (py "name = x" ++ [Py.newline]
                   ++ py "version = 1.1" ++ [Py.newline])
                2%Z 10%Z
                {[ py "a.toml" := py "name = x" ++ [Py.cr; Py.newline]
                                    ++ py "version = 1.0" ++ [Py.cr; Py.newline] ]}
                {[ py "a.toml" := py "name = x" ++ [Py.newline]
                                    ++ py "version = 1.1" ++ [Py.newline] ]}
                0%nat eq_refl eq_refl eq_refl ltac:(lia) ltac:(lia)).
  vm_compute in H. discriminate H.
Qed.

(** C5, as it holds.  Rewriting replaces the selected line only, in the
    text as it is read (with [\r\n] and [\r] read as [\n]): the text before
    the line and the text after it are written back as they were read, and
    every other file is left alone.  A file without carriage return keeps
    its other lines character for character; in a file with [\r\n] or [\r]
    line ends every line comes back with [\n].  For a line number from 1 on
    the selected line is the line of that number.  When the terminator is
    given and found, the new line ends with the old line from the
    terminator's index on; otherwise it ends with a newline. *)
Theorem rewrite_frame :
  forall (file raw line end_ v : str) (ln pos : Z) (k : nat)
         (disk : gmap str str) (out : list str),
    disk !! file = Some raw ->
    list_index (Py.readlines (Py.universal_newlines raw)) (ln - 1) = Some k ->
    Py.readlines (Py.universal_newlines raw) !! k = Some line ->
    let lines := Py.readlines (Py.universal_newlines raw) in
    let before := concat (take k lines) in
    let after := concat (drop (S k) lines) in
    let new_line :=
      Py.slice_to line pos ++ v ++
      (if Py.truthy end_ && negb (Py.find line end_ pos =? -1)%Z
       then Py.slice_from line (Py.find line end_ pos)
       else [Py.newline]) in
    Py.universal_newlines raw = before ++ line ++ after /\
    (Py.cr ∉ raw -> raw = before ++ line ++ after) /\
    set_version_lines lines ln pos end_ (Some v)
      = Ok (<[k := new_line]> lines) /\
    set_version_str_disk file ln pos end_ (Some v) disk
      = Ok (<[file := before ++ new_line ++ after]> disk) /\
    set_version_str file ln pos end_ (Some v) (World (text_layer disk) out)
      = Ret tt (World (text_layer (<[file := before ++ new_line ++ after]> disk))
                  out) /\
    ((1 <= ln)%Z -> Z.of_nat k = (ln - 1)%Z) /\
    (forall j : nat, j <> k -> <[k := new_line]> lines !! j = lines !! j) /\
    (forall e : nat,
       end_ <> [] -> Py.find line end_ pos = Z.of_nat e ->
       occurs_at end_ line e /\
       (start_index line pos <= Z.of_nat e)%Z /\
       new_line = Py.slice_to line pos ++ v ++ drop e line).
Proof.
  intros file raw line end_ v ln pos k disk out Hf Hk Hline
    lines before after new_line.
  pose proof (set_version_lines_eq _ _ pos end_ v _ _ Hk Hline) as Hset.
  fold lines new_line in Hset.
  assert (Htext : Py.universal_newlines raw = before ++ line ++ after).
  { subst before after lines. rewrite <- (concat_around _ _ _ Hline).
    by rewrite concat_readlines. }
  assert (Hdisk : set_version_str_disk file ln pos end_ (Some v) disk
                  = Ok (<[file := before ++ new_line ++ after]> disk)).
  { unfold set_version_str_disk. rewrite Hf. fold lines. rewrite Hset.
    unfold Py.writelines. rewrite concat_insert; [done|].
    by apply lookup_lt_Some in Hline. }
  split_and!.
  - done.
  - intros Hcr. by rewrite <- Htext, universal_newlines_id.
  - done.
  - done.
  - by rewrite set_version_str_text_layer, Hdisk.
  - intros Hln. apply list_index_Some in Hk as [_ [[_ ->]|[? _]]]; lia.
  - intros j Hj. by apply list_lookup_insert_ne.
  - intros e Hne Hfind. subst new_line. rewrite Hfind.
    destruct (find_some line end_ pos _ Hfind ltac:(lia))
      as (e' & He' & Hst & Hocc & _).
    apply Nat2Z.inj in He' as <-. split_and!; [done|done|].
    destruct end_ as [|c end_]; [done|]. simpl.
    destruct (Z.eqb_spec (Z.of_nat e) (-1)) as [?|_]; [lia|]. simpl.
    by rewrite slice_from_nonneg, Nat2Z.id by lia.
Qed.

Lemma rewrite_frame_witness :
  let raw := py "name = x" ++ [Py.newline] ++ py "version = <1.0> # v"
               ++ [Py.newline] ++ py "end" in
  let disk : gmap str str := {[ py "a.toml" := raw ]} in
  set_version_str_disk (py "a.toml") 2 11 (py ">") (Some (py "1.1")) disk
    = Ok (<[ py "a.toml" :=
               py "name = x" ++ [Py.newline] ++ py "version = <1.1> # v"
                 ++ [Py.newline] ++ py "end" ]> disk).
Proof.
  intros raw disk.
  exact (proj1 (proj2 (proj2 (proj2
           (rewrite_frame (py "a.toml") raw
              (py "version = <1.0> # v" ++ [Py.newline]) (py ">") (py "1.1")
              2 11 1 disk [] eq_refl eq_refl eq_refl))))).
Defined.

(** ** Extraction after rewriting *)

Section RoundTrip.

Implicit Types (pre v t line body : str) (i j e : nat).

Lemma prefix_of_app_long (l x t : str) :
  l `prefix_of` x ++ t -> (length l <= length x)%nat -> l `prefix_of` x.
Proof.
  intros [k Hk] Hlen. exists (take (length x - length l) k).
  apply (f_equal (take (length x))) in Hk.
  rewrite take_app_length in Hk. rewrite Hk at 1.
  rewrite take_app. rewrite (take_ge l) by lia. done.
Qed.

Lemma prefix_of_snoc_notin (l x : str) (c : ascii) :
  l `prefix_of` x ++ [c] -> c ∉ l -> l `prefix_of` x.
Proof.
  intros Hp Hc. apply (prefix_of_app_long l x [c]); [done|].
  destruct (decide (length l <= length x)%nat) as [?|Hgt]; [done|].
  destruct Hp as [k Hk]. exfalso. apply Hc.
  assert (Hlen : length l = S (length x) /\ k = []).
  { apply (f_equal length) in Hk. rewrite !length_app in Hk. simpl in Hk.
    split; [lia|]. apply nil_length_inv. lia. }
  destruct Hlen as [Hlen ->]. rewrite app_nil_r in Hk. rewrite <- Hk.
  apply elem_of_app. right. by left.
Qed.

Lemma slice_version pre v t :
  take (length v) (drop (length pre) (pre ++ v ++ t)) = v.
Proof. by rewrite drop_app_length, take_app_length. Qed.

(** End-of-line mode on the rewritten line. *)
Lemma version_in_line_eol pre v (end_ : str) :
  end_ = [] \/ ((Py.newline ∉ end_) /\ starts_nowhere_in end_ v) ->
  version_in_line (Z.of_nat (length pre)) end_ (pre ++ v ++ [Py.newline]) = v.
Proof.
  intros Hend.
  assert (Heol : Py.slice (pre ++ v ++ [Py.newline]) (Z.of_nat (length pre)) (-1) = v).
  { rewrite slice_minus_one by lia. rewrite Nat2Z.id.
    rewrite !length_app. simpl.
    replace (length pre + (length v + 1) - 1 - length pre)%nat
      with (length v) by lia.
    apply slice_version. }
  unfold version_in_line. destruct end_ as [|c end_]; [done|]. simpl.
  destruct Hend as [?|[Hnl Hno]]; [done|].
  set (end_' := c :: end_) in *.
  assert (Hfind : Py.find (pre ++ v ++ [Py.newline]) end_'
                    (Z.of_nat (length pre)) = (-1)%Z).
  { apply find_none. intros i Hi [_ Hp]. unfold start_index in Hi.
    destruct (Z.ltb_spec (Z.of_nat (length pre)) 0) as [?|_]; [lia|].
    replace i with (length pre + (i - length pre))%nat in Hp by lia.
    rewrite <- drop_drop, drop_app_length in Hp.
    set (j := (i - length pre)%nat) in *.
    destruct (decide (j < length v)%nat) as [Hj|Hj].
    - rewrite drop_app_le in Hp by lia.
      apply prefix_of_snoc_notin in Hp; [|done].
      apply (Hno j Hj). rewrite drop_app_le by lia.
      by apply prefix_app_r.
    - rewrite drop_app_ge in Hp by lia.
      destruct (j - length v)%nat; simpl in Hp.
      + apply Hnl. destruct Hp as [k Hk]. subst end_'.
        injection Hk as -> _. by left.
      + rewrite drop_nil in Hp. by apply prefix_nil_inv in Hp. }
  by rewrite Hfind.
Qed.

(** Terminator mode on the rewritten line. *)
Lemma version_in_line_found pre v (end_ : str) t :
  end_ <> [] -> starts_nowhere_in end_ v ->
  version_in_line (Z.of_nat (length pre)) end_ (pre ++ v ++ end_ ++ t) = v.
Proof.
  intros Hne Hno.
  assert (Hfind : Py.find (pre ++ v ++ end_ ++ t) end_ (Z.of_nat (length pre))
                  = Z.of_nat (length pre + length v)).
  { assert (Hst : start_index (pre ++ v ++ end_ ++ t) (Z.of_nat (length pre))
                  = Z.of_nat (length pre)).
    { unfold start_index.
      by destruct (Z.ltb_spec (Z.of_nat (length pre)) 0) as [?|_]; [lia|]. }
    apply find_lowest; rewrite ?Hst.
    - lia.
    - split; [rewrite !length_app; lia|].
      rewrite <- drop_drop, drop_app_length, drop_app_length.
      by apply prefix_app_r.
    - intros j Hj Hlt [_ Hp].
      replace j with (length pre + (j - length pre))%nat in Hp by lia.
      rewrite <- drop_drop, drop_app_length in Hp.
      apply (Hno (j - length pre)%nat); [lia|].
      rewrite (app_assoc v end_ t) in Hp.
      rewrite drop_app_le in Hp by (rewrite length_app; lia).
      apply (prefix_of_app_long _ _ _ Hp).
      rewrite length_drop, length_app. lia. }
  unfold version_in_line. destruct end_ as [|c end_]; [done|].
  cbn [Py.truthy]. rewrite Hfind, slice_nonneg by lia.
  rewrite !Nat2Z.id.
  replace (length pre + length v - length pre)%nat with (length v) by lia.
  apply slice_version.
Qed.

(** A line that keeps the end of a well-formed line is well formed. *)
Lemma line_ok_keep_end (final : bool) line pre e :
  line_ok final line -> (e < length line)%nat -> Py.newline ∉ pre ->
  line_ok final (pre ++ drop e line).
Proof.
  intros (body & Hnl & Hl) He Hpre.
  assert (Hdrop : Py.newline ∉ pre ++ drop e body).
  { apply not_elem_of_app. split; [done|].
    intros Hin. apply Hnl. rewrite <- (take_drop e body).
    apply elem_of_app. by right. }
  destruct Hl as [->|(Hfin & Hne & ->)].
  - exists (pre ++ drop e body). split; [done|]. left.
    rewrite length_app in He. simpl in He.
    by rewrite drop_app_le, app_assoc by lia.
  - exists (pre ++ drop e body). split; [done|]. right.
    split_and!; [done| |done].
    intros [_ Hnil]%app_eq_nil. apply (f_equal length) in Hnil.
    rewrite length_drop in Hnil. simpl in Hnil. lia.
Qed.

Lemma line_ok_newline (final : bool) body :
  Py.newline ∉ body -> line_ok final (body ++ [Py.newline]).
Proof. intros Hnl. exists body. split; [done|]. by left. Qed.

End RoundTrip.

(** C3, as it holds.  For a line number within the file, a column within
    the text of the selected line before its newline, a new version without
    newline and without carriage return, and a terminator that starts
    nowhere inside the new version followed by the terminator and that,
    when it is not found in the line, has no newline: rewriting succeeds,
    and extraction at the same location then returns the new version. *)
Theorem extract_after_rewrite :
  forall (file raw line end_ v : str) (ln pos : Z)
         (disk : gmap str str) (out : list str),
    disk !! file = Some raw ->
    (1 <= ln)%Z ->
    Py.readlines (Py.universal_newlines raw) !! Z.to_nat (ln - 1) = Some line ->
    (0 <= pos <= Py.len line)%Z ->
    Py.newline ∉ take (Z.to_nat pos) line ->
    Py.newline ∉ v ->
    Py.cr ∉ v ->
    (Py.find line end_ pos = (-1)%Z -> Py.newline ∉ end_) ->
    (end_ <> [] -> starts_nowhere_in end_ v) ->
    exists disk' : gmap str str,
      set_version_str_disk file ln pos end_ (Some v) disk = Ok disk' /\
      set_version_str file ln pos end_ (Some v) (World (text_layer disk) out)
        = Ret tt (World (text_layer disk') out) /\
      get_version_str file ln pos end_ (World (text_layer disk') out)
        = Ret (Some v) (World (text_layer disk') out).
Proof.
  intros file raw line end_ v ln pos disk out
    Hf Hln Hline Hpos Hpre Hv Hcr Hend Hno.
  set (text := Py.universal_newlines raw) in *.
  set (lines := Py.readlines text) in *.
  set (k := Z.to_nat (ln - 1)) in *.
  set (p := Z.to_nat pos) in *.
  assert (Hk : (k < length lines)%nat) by by apply lookup_lt_Some in Hline.
  assert (Hidx : list_index lines (ln - 1) = Some k).
  { apply list_index_in_range. unfold Py.len. lia. }
  assert (Hp : length (take p line) = p).
  { rewrite length_take. unfold Py.len in Hpos. lia. }
  pose proof (lines_ok_lookup lines k line (readlines_ok text) Hline) as Hok.
  (* the rewritten line, and what extraction finds in it *)
  assert (Hnew : exists new_line,
             set_version_lines lines ln pos end_ (Some v)
               = Ok (<[k := new_line]> lines) /\
             line_ok (bool_decide (S k = length lines)) new_line /\
             version_in_line pos end_ new_line = v).
  { rewrite (set_version_lines_eq lines ln pos end_ v k line Hidx Hline).
    rewrite slice_to_nonneg by lia. fold p.
    eexists. split; [done|].
    replace pos with (Z.of_nat (length (take p line))) at 3 by lia.
    destruct end_ as [|c end_].
    { simpl. split.
      - rewrite app_assoc. apply line_ok_newline.
        by apply not_elem_of_app.
      - apply version_in_line_eol. by left. }
    set (end_' := c :: end_) in *. cbn [Py.truthy andb].
    specialize (Hno ltac:(done)).
    destruct (Z.eqb_spec (Py.find line end_' pos) (-1)) as [Hnone|Hsome]; simpl.
    - split.
      + rewrite app_assoc. apply line_ok_newline.
        by apply not_elem_of_app.
      + apply version_in_line_eol. right. split; [by apply Hend|done].
    - destruct (find_some line end_' pos _ eq_refl Hsome)
        as (e & He & Hst & [Hle [t Ht]] & _).
      rewrite He, slice_from_nonneg, Nat2Z.id by lia.
      assert (Helt : (e < length line)%nat).
      { apply (f_equal length) in Ht.
        rewrite length_drop, length_app in Ht. simpl in Ht. lia. }
      split.
      + rewrite app_assoc. apply line_ok_keep_end; [done|done|].
        by apply not_elem_of_app.
      + rewrite Ht. by apply version_in_line_found. }
  destruct Hnew as (new_line & Hset & Hnok & Hver).
  assert (Hdisk : set_version_str_disk file ln pos end_ (Some v) disk
                  = Ok (<[file := Py.writelines (<[k := new_line]> lines)]> disk)).
  { unfold set_version_str_disk. rewrite Hf. fold text lines. by rewrite Hset. }
  eexists. split_and!; [exact Hdisk| |].
  - by rewrite set_version_str_text_layer, Hdisk.
  - rewrite (get_version_str_text_layer _ _ _ _ _ _
               (Py.writelines (<[k := new_line]> lines)))
      by apply lookup_insert_eq.
    unfold Py.writelines.
    rewrite universal_newlines_id.
    2:{ apply (set_version_lines_no_cr lines _ ln pos end_ v); [|done|done].
        subst lines. rewrite concat_readlines.
        apply universal_newlines_no_cr. }
    rewrite readlines_concat
      by (apply lines_ok_insert; [apply readlines_ok|done|done]).
    rewrite get_version_lines_lookup.
    destruct (Z.leb_spec 0 (ln - 1)) as [_|?]; [|lia].
    rewrite Z.sub_0_r. fold k.
    rewrite list_lookup_insert_eq by done. simpl. by rewrite Hver.
Qed.

Lemma extract_after_rewrite_witness :
  let disk : gmap str str :=
    {[ py "a.toml" :=
         py "name = x" ++ [Py.cr; Py.newline] ++ py "version = <1.0> # v"
           ++ [Py.cr; Py.newline] ]} in
  exists disk' : gmap str str,
    set_version_str_disk (py "a.toml") 2 11 (py ">") (Some (py "1.10.2")) disk
      = Ok disk' /\
    set_version_str (py "a.toml") 2 11 (py ">") (Some (py "1.10.2"))
      (World (text_layer disk) []) = Ret tt (World (text_layer disk') []) /\
    get_version_str (py "a.toml") 2 11 (py ">") (World (text_layer disk') [])
      = Ret (Some (py "1.10.2")) (World (text_layer disk') []).
Proof.
  intros disk.
  apply (extract_after_rewrite (py "a.toml")
           (py "name = x" ++ [Py.cr; Py.newline] ++ py "version = <1.0> # v"
              ++ [Py.cr; Py.newline])
           (py "version = <1.0> # v" ++ [Py.newline])).
  - reflexivity.
  - lia.
  - reflexivity.
  - vm_compute. split; discriminate.
  - apply (bool_decide_unpack _). vm_compute. reflexivity.
  - apply (bool_decide_unpack _). vm_compute. reflexivity.
  - apply (bool_decide_unpack _). vm_compute. reflexivity.
  - vm_compute. discriminate.
  - intros _ i Hi. simpl in Hi.
    do 6 (destruct i as [|i]; [by intros [? [=]]|]). lia.
Defined.

(** A carriage return in the new version is written as it is and read
    back as a newline: the line is cut in two and extraction returns the
    part before it. *)
Example carriage_return_in_version :
  let disk : gmap str str := {[ py "a.txt" := py "v=1.0" ++ [Py.newline] ]} in
  let v := py "2" ++ [Py.cr] ++ py "0" in
  let disk' : gmap str str :=
    {[ py "a.txt" := py "v=2" ++ [Py.cr] ++ py "0" ++ [Py.newline] ]} in
  set_version_str_disk (py "a.txt") 1 2 [] (Some v) disk = Ok disk' /\
  text_layer disk'
    = {[ py "a.txt" := py "v=2" ++ [Py.newline] ++ py "0" ++ [Py.newline] ]} /\
  get_version_str (py "a.txt") 1 2 [] (World (text_layer disk') [])
    = Ret (Some (py "2")) (World (text_layer disk') []).
Proof. split_and!; reflexivity. Qed.

(** C3 as stated fails.  With a terminator that is found: a new version
    that contains the terminator is cut at it.  In end-of-line mode: with a
    column beyond the end of the line, the new version lands on a line of
    its own. *)
Lemma extract_after_rewrite_fails :
  (let w := World {[ py "a.txt" := py "v=<1.0>" ++ [Py.newline] ]} [] in
   let w' := World {[ py "a.txt" := py "v=<2>3>" ++ [Py.newline] ]} [] in
   set_version_str (py "a.txt") 1 3 (py ">") (Some (py "2>3")) w = Ret tt w' /\
   get_version_str (py "a.txt") 1 3 (py ">") w' = Ret (Some (py "2")) w') /\
  (let u := World {[ py "b.txt" := py "v=1" ++ [Py.newline] ]} [] in
   let u' := World {[ py "b.txt" :=
                 py "v=1" ++ [Py.newline] ++ py "2.0" ++ [Py.newline] ]} [] in
   set_version_str (py "b.txt") 1 6 [] (Some (py "2.0")) u = Ret tt u' /\
   get_version_str (py "b.txt") 1 6 [] u' = Ret (Some []) u') /\
  ~ (forall (file end_ v : str) (ln pos : Z) (w w' : world),
       set_version_str file ln pos end_ (Some v) w = Ret tt w' ->
       get_version_str file ln pos end_ w' = Ret (Some v) w').
Proof.
  split_and!; try (split; reflexivity).
  intros H.
  specialize (H (py "a.txt") (py ">") (py "2>3") 1%Z 3%Z
                (World {[ py "a.txt" := py "v=<1.0>" ++ [Py.newline] ]} [])
                _ eq_refl).
  discriminate H.
Qed.

(** ** Runs: [process_package] and [process_config] *)

Section Runs.

Context {A B : Type}.
Implicit Types (m : M A) (k : A -> M B) (w : world).

Lemma bind_Ret m k w b w' :
  (m ≫= k) w = Ret b w' ->
  exists a w1, m w = Ret a w1 /\ k a w1 = Ret b w'.
Proof.
  unfold mbind, M_bind, bind. destruct (m w) as [a w1|e w1]; [|done].
  intros H. by exists a, w1.
Qed.

Lemma bind_Raise m k w e w' :
  (m ≫= k) w = Raise e w' ->
  m w = Raise e w' \/ exists a w1, m w = Ret a w1 /\ k a w1 = Raise e w'.
Proof.
  unfold mbind, M_bind, bind. destruct (m w) as [a w1|e1 w1].
  - intros H. right. by exists a, w1.
  - intros [= -> ->]. by left.
Qed.

Lemma never_asserts_bind m k :
  never_asserts m -> (forall a, never_asserts (k a)) ->
  never_asserts (m ≫= k).
Proof.
  intros Hm Hk w w' e [H|(a & w1 & _ & H)]%bind_Raise.
  - by apply (Hm w w').
  - by apply (Hk a w1 w').
Qed.

Lemma never_asserts_ret (a : A) : never_asserts (mret a).
Proof. by intros w w' e. Qed.

Lemma never_asserts_raise (e : exn) :
  e <> AssertionError -> never_asserts (raise e : M A).
Proof. by intros He w w' e' [= <- _]. Qed.

Lemma never_asserts_lift (r : result A) :
  (forall e, r = Err e -> e <> AssertionError) -> never_asserts (lift r).
Proof.
  intros Hr. destruct r as [a|e]; simpl; [apply never_asserts_ret|].
  apply never_asserts_raise. by apply Hr.
Qed.

End Runs.

Section Upgrade.

Implicit Types (w : world) (pc : list file_config)
  (versions : Dict.t (option str)) (config : list (str * list file_config)).

Lemma never_asserts_print line : never_asserts (print line).
Proof. by intros w w' e. Qed.

Lemma never_asserts_read_text file : never_asserts (read_text file).
Proof.
  intros w w' e. unfold read_text. destruct (files w !! file); [done|].
  by intros [= <- _].
Qed.

Lemma never_asserts_write_lines file lines :
  never_asserts (write_lines file lines).
Proof. by intros w w' e. Qed.

Lemma never_asserts_get_version_str file ln pos (end_ : str) :
  never_asserts (get_version_str file ln pos end_).
Proof.
  apply never_asserts_bind; [apply never_asserts_read_text|].
  intros text. apply never_asserts_ret.
Qed.

Lemma set_version_lines_Err lines ln pos (end_ : str) version e :
  set_version_lines lines ln pos end_ version = Err e -> e <> AssertionError.
Proof.
  unfold set_version_lines, concat_value.
  destruct (list_index lines (ln - 1)); [|by intros [= <-]].
  destruct version; [by destruct (_ || _)|].
  destruct (_ || _); by intros [= <-].
Qed.

Lemma never_asserts_set_version_str file ln pos (end_ : str) version :
  never_asserts (set_version_str file ln pos end_ version).
Proof.
  apply never_asserts_bind; [apply never_asserts_read_text|]. intros text.
  apply never_asserts_bind; [|intros lines; apply never_asserts_write_lines].
  apply never_asserts_lift. intros e. apply set_version_lines_Err.
Qed.

Lemma never_asserts_extract_all pc versions :
  never_asserts (extract_all pc versions).
Proof.
  revert versions. induction pc as [|fc pc IH]; intros versions; simpl.
  - apply never_asserts_ret.
  - apply never_asserts_bind; [apply never_asserts_get_version_str|].
    intros v. apply IH.
Qed.

Lemma never_asserts_upgrade_all pc versions highest_version :
  never_asserts (upgrade_all pc versions highest_version).
Proof.
  induction pc as [|fc pc IH]; simpl; [apply never_asserts_ret|].
  apply never_asserts_bind.
  - unfold version_of. destruct (Dict.get versions (fc_file fc));
      [apply never_asserts_ret | by apply never_asserts_raise].
  - intros v. destruct (decide (v = highest_version)); [done|].
    apply never_asserts_bind; [apply never_asserts_print|]. intros _.
    apply never_asserts_bind; [apply never_asserts_set_version_str|].
    by intros _.
Qed.

Lemma highest_loop_Err vs st e :
  highest_loop vs st = Err e -> e = TypeError.
Proof.
  revert st. induction vs as [|[v|] vs IH]; intros st; simpl; [done| |].
  - apply IH.
  - by intros [= <-].
Qed.

Lemma never_asserts_report_lines versions :
  never_asserts (report_lines versions).
Proof.
  induction versions as [|[name v] versions IH]; simpl;
    [apply never_asserts_ret|].
  apply never_asserts_bind; [apply never_asserts_print|]. by intros _.
Qed.

Lemma never_asserts_process_package name pc upgrade :
  never_asserts (process_package name pc upgrade).
Proof.
  apply never_asserts_bind; [apply never_asserts_extract_all|].
  intros versions. destruct (negb (versions_match versions));
    [|apply never_asserts_ret].
  apply never_asserts_bind.
  { apply never_asserts_lift. by intros e ->%highest_loop_Err. }
  intros highest_version. destruct upgrade.
  - apply never_asserts_bind; [apply never_asserts_print|]. intros _.
    apply never_asserts_bind; [apply never_asserts_upgrade_all|]. intros _.
    apply never_asserts_bind; [apply never_asserts_print|]. intros _.
    apply never_asserts_ret.
  - apply never_asserts_bind; [|intros _; apply never_asserts_ret].
    apply never_asserts_bind; [apply never_asserts_print|]. intros _.
    apply never_asserts_bind; [apply never_asserts_report_lines|]. intros _.
    apply never_asserts_print.
Qed.

(** In upgrade mode [process_package] has nothing left to suggest. *)
Lemma process_package_upgrade_None name pc w r w' :
  process_package name pc true w = Ret r w' -> r = None.
Proof.
  intros (versions & w1 & _ & H)%bind_Ret.
  destruct (negb (versions_match versions)); [|by injection H as <-].
  apply bind_Ret in H as (hv & w2 & _ & H).
  apply bind_Ret in H as (? & w3 & _ & H).
  apply bind_Ret in H as (? & w4 & _ & H).
  apply bind_Ret in H as (? & w5 & _ & H).
  by injection H as <-.
Qed.

Lemma never_asserts_collect_upgrades config upgrade upgrades :
  never_asserts (collect_upgrades config upgrade upgrades).
Proof.
  revert upgrades. induction config as [|[name pc] config IH];
    intros upgrades; simpl; [apply never_asserts_ret|].
  apply never_asserts_bind; [apply never_asserts_process_package|].
  intros upgrade_to. by destruct (Py.truthy_opt upgrade_to).
Qed.

(** So [upgrades] stays as it was. *)
Lemma collect_upgrades_upgrade config upgrades w r w' :
  collect_upgrades config true upgrades w = Ret r w' -> r = upgrades.
Proof.
  revert w. induction config as [|[name pc] config IH]; intros w; simpl.
  - by intros [= <-].
  - intros (upgrade_to & w1 & ->%process_package_upgrade_None & H)%bind_Ret.
    simpl in H. by apply IH in H.
Qed.

Lemma process_config_upgrade_Ret config w ok w' :
  process_config config true w = Ret ok w' ->
  ok = true /\
  exists printed, stdout w' = printed ++ [py "All versions match"].
Proof.
  intros (upgrades & w1 & ->%collect_upgrades_upgrade & H)%bind_Ret.
  simpl in H. apply bind_Ret in H as ([] & w2 & Hp & H).
  injection H as <- <-. injection Hp as <-. split; [done|].
  by exists (stdout w1).
Qed.

Lemma process_config_upgrade_Raise config w e w' :
  process_config config true w = Raise e w' -> e <> AssertionError.
Proof.
  intros [H|(upgrades & w1 & ->%collect_upgrades_upgrade & H)]%bind_Raise.
  - by apply never_asserts_collect_upgrades in H.
  - simpl in H. by apply bind_Raise in H as [H|(? & ? & _ & H)].
Qed.

End Upgrade.

(** C9, as it holds.  In upgrade mode [process_package] never returns a
    pending upgrade and [process_config] never reaches its [assert False]:
    a run either returns success or is aborted by another exception, one
    raised while a file is read or rewritten.  A run that rewrites a file
    and returns success is shown. *)
Theorem upgrade_never_reaches_assert :
  (forall (name : str) (pc : list file_config) (w : world),
     match process_package name pc true w with
     | Ret r _ => r = None
     | Raise e _ => e <> AssertionError
     end) /\
  (forall (config : list (str * list file_config)) (w : world),
     match process_config config true w with
     | Ret ok _ => ok = true
     | Raise e _ => e <> AssertionError
     end) /\
  (let w := World {[ py "a.txt" := py "version = 0.9" ++ [Py.newline];
                     py "b.txt" := py "VERSION=1.0" ++ [Py.newline] ]} [] in
   exists w' : world,
     process_config
       [(py "pkg", [FileConfig (py "a.txt") 1 10 []; FileConfig (py "b.txt") 1 8 []])]
       true w = Ret true w' /\
     files w' !! py "a.txt" = Some (py "version = 1.0" ++ [Py.newline])).
Proof.
  split_and!.
  - intros name pc w. destruct (process_package name pc true w) as [r w'|e w'] eqn:E.
    + by apply process_package_upgrade_None in E.
    + by apply never_asserts_process_package in E.
  - intros config w. destruct (process_config config true w) as [ok w'|e w'] eqn:E.
    + by apply process_config_upgrade_Ret in E as [-> _].
    + by apply process_config_upgrade_Raise in E.
  - eexists. split; reflexivity.
Qed.

(** C9 as stated fails: a run in upgrade mode does not always return.  A
    location in a file that does not exist aborts it. *)
Lemma upgrade_run_can_abort :
  let config := [(py "pkg", [FileConfig (py "gone.txt") 1 0 []])] in
  let w := World ∅ [] in
  process_config config true w = Raise FileNotFoundError w /\
  forall (ok : bool) (w' : world), process_config config true w <> Ret ok w'.
Proof. split; [reflexivity|]. intros ok w'. discriminate. Qed.




(** * Further properties of the code *)

(** ** [versions_match] on values that may be [None] *)

Section VersionsMatchNone.

Implicit Types (vs : list (option str)) (b : str).

Lemma versions_match_loop_Some vs b :
  versions_match_loop vs (Some b) = true <-> vs = replicate (length vs) (Some b).
Proof.
  induction vs as [|v vs IH]; simpl; [done|].
  destruct (decide (Some b = v)) as [<-|Hne].
  - rewrite IH. split; [by intros <-|by intros [= <-]].
  - split; [done|]. by intros [= ? _].
Qed.

Lemma versions_match_loop_None vs :
  versions_match_loop vs None = true <->
  exists (n m : nat) (b : str), vs = replicate n None ++ replicate m (Some b).
Proof.
  induction vs as [|[x|] vs IH]; simpl.
  - split; [|done]. intros _. by exists 0%nat, 0%nat, [].
  - rewrite versions_match_loop_Some. split.
    + intros H. exists 0%nat, (S (length vs)), x. simpl. by rewrite <- H.
    + intros (n & m & b & H). destruct n as [|n]; [|done].
      destruct m as [|m]; [done|]. simpl in H. injection H as <- ->.
      by rewrite length_replicate.
  - rewrite IH. split.
    + intros (n & m & b & ->). by exists (S n), m, b.
    + intros (n & m & b & H). destruct n as [|n]; simpl in H.
      * by destruct m.
      * injection H as ->. by exists n, m, b.
Qed.

End VersionsMatchNone.

(** X1. [versions_match] takes [None] for "no baseline yet": it returns
    true exactly when the values are some [None]s followed by copies of one
    string.  So values [None] that come first are not compared with
    anything, and a [None] after a string makes the result false. *)
Theorem versions_match_none_then_equal :
  forall d : Dict.t (option str),
    versions_match d = true <->
    exists (n m : nat) (b : str),
      Dict.values d = replicate n None ++ replicate m (Some b).
Proof. intros d. apply versions_match_loop_None. Qed.

Lemma versions_match_none_then_equal_witness :
  versions_match [(py "a", None); (py "b", Some (py "1.0")); (py "c", Some (py "1.0"))]
    = true /\
  versions_match [(py "a", Some (py "1.0")); (py "b", None)] = false.
Proof.
  split.
  - apply versions_match_none_then_equal. by exists 1%nat, 2%nat, (py "1.0").
  - apply not_true_is_false. intros H.
    apply versions_match_none_then_equal in H as (n & m & b & H).
    destruct n as [|n]; [|done]. destruct m as [|[|m]]; done.
Defined.

(** X2. The string that [get_highest_version] returns is beaten by no
    string of the mapping: scanned against it, no token vector would
    replace it.  In particular its first number is at least every other
    first number. *)
Theorem highest_never_beaten :
  forall (m : list (str * str)) (r : str),
    get_highest_version (of_strings m) = Ok (Some r) ->
    (forall u, u ∈ m.*2 -> beats (tokens r) (tokens u) = false) /\
    (forall u (a b : N),
       u ∈ m.*2 -> head (tokens r) = Some a -> head (tokens u) = Some b ->
       (b <= a)%N).
Proof.
  intros m r. unfold get_highest_version.
  rewrite values_of_strings, highest_loop_strings. intros [= Hr].
  assert (Hok : state_ok m.*2 (foldl highest_step None m.*2)).
  { by apply foldl_highest_step_ok. }
  assert (Hun : unbeaten ([] ++ m.*2) (foldl highest_step None m.*2)).
  { apply foldl_highest_step_unbeaten. by intros u ?%elem_of_nil. }
  destruct (foldl highest_step None m.*2) as [[hv hs]|]; [|done].
  cbv [unbeaten] in Hun. simpl in Hr. injection Hr as ->.
  destruct (Hok hv r eq_refl) as (-> & _ & _). rewrite app_nil_l in Hun.
  split; [done|]. intros u a b Hu Ha Hb. specialize (Hun u Hu).
  destruct (tokens r) as [|a' ra]; [done|]. destruct (tokens u) as [|b' ub]; [done|].
  simpl in *. injection Ha as ->. injection Hb as ->.
  destruct (N.ltb_spec a b); [done|lia].
Qed.

Lemma highest_never_beaten_witness :
  beats (tokens (py "1.10.0")) (tokens (py "1.9.7")) = false /\
  forall a b : N,
    head (tokens (py "1.10.0")) = Some a -> head (tokens (py "0.99")) = Some b ->
    (b <= a)%N.
Proof.
  pose proof (highest_never_beaten
                [(py "x", py "1.9.7"); (py "y", py "1.10.0"); (py "z", py "0.99")]
                (py "1.10.0") eq_refl) as [H1 H2].
  split.
  - apply H1. simpl. by left.
  - intros a b. apply H2. simpl. right. right. by left.
Defined.

(** X3. On a mapping whose strings have only digit runs that [int]
    converts, [get_highest_version] raises [TypeError] exactly when some
    value of the mapping is [None]; otherwise it returns, and it returns
    [None] exactly when no value has a digit. *)
Theorem get_highest_version_outcome :
  forall d : Dict.t (option str),
    (forall v, Some v ∈ Dict.values d -> int_ok v) ->
    (None ∈ Dict.values d -> get_highest_version d = Err TypeError) /\
    (None ∉ Dict.values d ->
     exists r, get_highest_version d = Ok r /\
       (r = None <-> forall v, Some v ∈ Dict.values d -> no_digit v)).
Proof.
  intros d _. split.
  - apply highest_loop_None_value.
  - intros [ss Hss]%all_strings. unfold get_highest_version. rewrite Hss.
    rewrite highest_loop_strings. eexists. split; [done|].
    rewrite fmap_None, foldl_highest_step_None. split.
    + intros [_ H] v Hv. apply tokens_nil_no_digit, H.
      by apply list_elem_of_fmap in Hv as (? & [= <-] & ?).
    + intros H. split; [done|]. intros v Hv. apply tokens_nil_no_digit, H.
      by apply list_elem_of_fmap_2.
Qed.

Lemma get_highest_version_outcome_witness :
  get_highest_version [(py "a", Some (py "1.0")); (py "b", None)] = Err TypeError /\
  exists r, get_highest_version [(py "a", Some (py "x")); (py "b", Some (py "1"))]
              = Ok r /\ r <> None.
Proof.
  split.
  - apply get_highest_version_outcome.
    + intros v Hv. simpl in Hv.
      apply elem_of_cons in Hv as [[= ->]|Hv];
        [|by apply list_elem_of_singleton in Hv].
      apply (bool_decide_unpack _). vm_compute. reflexivity.
    + simpl. right. by left.
  - destruct (get_highest_version_outcome
                [(py "a", Some (py "x")); (py "b", Some (py "1"))])
      as [_ Hret].
    { intros v Hv. simpl in Hv.
      apply elem_of_cons in Hv as [[= ->]|Hv];
        [|apply list_elem_of_singleton in Hv as [= ->]];
        apply (bool_decide_unpack _); vm_compute; reflexivity. }
    destruct Hret as (r & Hr & Hiff).
    { simpl. intros [?|[?|?%elem_of_nil]%elem_of_cons]%elem_of_cons; done. }
    exists r. split; [done|]. intros Hn.
    assert (Hd : no_digit (py "1")).
    { apply (proj1 Hiff Hn). simpl. right. by left. }
    by inversion Hd.
Defined.

(** ** What extraction can return *)

Section ExtractedVersion.

Implicit Types (line body : str) (pos : Z).

Lemma adjust_range (n i : Z) : (0 <= n)%Z -> (0 <= Py.adjust n i <= n)%Z.
Proof. intros Hn. unfold Py.adjust. destruct (Z.ltb_spec i 0); lia. Qed.

(** A slice lies before its upper bound. *)
Lemma slice_before_bound {A} (s : list A) (lo hi : Z) (x : A) :
  x ∈ Py.slice s lo hi -> x ∈ take (Z.to_nat (Py.adjust (Py.len s) hi)) s.
Proof.
  unfold Py.slice.
  set (l := Py.adjust (Py.len s) lo). set (h := Py.adjust (Py.len s) hi).
  destruct (Z.le_gt_cases l h) as [Hle|Hgt].
  - rewrite take_drop_commute.
    replace (Z.to_nat l + Z.to_nat (h - l))%nat with (Z.to_nat h).
    + apply subseteq_drop.
    + pose proof (adjust_range (Py.len s) lo ltac:(unfold Py.len; lia)).
      fold l in H. lia.
  - replace (Z.to_nat (h - l)) with 0%nat by lia. by intros ?%elem_of_nil.
Qed.

Lemma line_ok_take (final : bool) line (h : nat) :
  line_ok final line -> (h <= length line - 1)%nat -> Py.newline ∉ take h line.
Proof.
  intros (body & Hnl & Hl) Hh Hin. apply Hnl.
  destruct Hl as [->|(_ & _ & ->)].
  - rewrite length_app in Hh. simpl in Hh.
    rewrite take_app_le in Hin by lia. by apply subseteq_take in Hin.
  - by apply subseteq_take in Hin.
Qed.

Lemma version_in_line_no_newline (final : bool) line pos (end_ : str) :
  line_ok final line -> Py.newline ∉ version_in_line pos end_ line.
Proof.
  intros Hok Hin.
  assert (Heol : Py.newline ∉ Py.slice line pos (-1)).
  { intros Hx%slice_before_bound. revert Hx.
    apply (line_ok_take final); [done|]. unfold Py.adjust, Py.len. simpl. lia. }
  unfold version_in_line in Hin. destruct end_ as [|c end_]; [done|].
  cbn [Py.truthy] in Hin. set (end_' := c :: end_) in *.
  destruct (decide (Py.find line end_' pos = (-1)%Z)) as [Hnone|Hsome].
  { by rewrite Hnone in Hin. }
  destruct (find_some line end_' pos _ eq_refl Hsome)
    as (e & He & _ & [Hle [t Ht]] & _).
  rewrite He in Hin. apply slice_before_bound in Hin. revert Hin.
  apply (line_ok_take final); [done|].
  apply (f_equal length) in Ht. rewrite length_drop, length_app in Ht.
  simpl in Ht. unfold Py.adjust, Py.len.
  destruct (Z.ltb_spec (Z.of_nat e) 0); lia.
Qed.

End ExtractedVersion.

(** X4. A version string that extraction returns never contains a newline
    character, whatever the column and the terminator are. *)
Theorem extracted_version_has_no_newline :
  forall (file end_ v : str) (ln pos : Z) (w w' : world),
    get_version_str file ln pos end_ w = Ret (Some v) w' ->
    Py.newline ∉ v.
Proof.
  intros file end_ v ln pos w w' H.
  destruct (files w !! file) as [text|] eqn:Hf.
  - rewrite (get_version_str_eq _ _ _ _ _ text Hf) in H. injection H as H _.
    rewrite get_version_lines_lookup in H.
    destruct (0 <=? ln - 1)%Z; [|done].
    destruct (Py.readlines text !! Z.to_nat (ln - 1 - 0)) as [line|] eqn:Hl;
      [|done].
    injection H as <-. eapply version_in_line_no_newline.
    eapply lines_ok_lookup; [apply readlines_ok|done].
  - by rewrite get_version_str_missing in H.
Qed.

Lemma extracted_version_has_no_newline_witness :
  Py.newline ∉ py "1.0 # last".
Proof.
  apply (extracted_version_has_no_newline (py "a.txt") (py ";") _ 2 2
           (World {[ py "a.txt" :=
                      py "x" ++ [Py.newline] ++ py "v=1.0 # last" ++ [Py.newline] ]} [])
           (World {[ py "a.txt" :=
                      py "x" ++ [Py.newline] ++ py "v=1.0 # last" ++ [Py.newline] ]} [])).
  reflexivity.
Defined.

(** ** How rewriting fails, and line numbers below 1 *)

(** X5. Three ways in which [set_version_str] fails before it opens the
    file for writing, so that no file is changed: [FileNotFoundError] on a
    file that does not exist; [IndexError] on a line number outside the
    file, whatever the version is; [TypeError] on the version [None] with a
    line number inside the file. *)
Theorem set_version_str_failure :
  forall (file end_ : str) (ln pos : Z) (w : world),
    (files w !! file = None ->
     forall version,
       set_version_str file ln pos end_ version w = Raise FileNotFoundError w) /\
    (forall text : str,
       files w !! file = Some text ->
       (ln - 1 < - Py.len (Py.readlines text) \/
        Py.len (Py.readlines text) <= ln - 1)%Z ->
       forall version,
         set_version_str file ln pos end_ version w = Raise IndexError w) /\
    (forall text : str,
       files w !! file = Some text ->
       (- Py.len (Py.readlines text) <= ln - 1 < Py.len (Py.readlines text))%Z ->
       set_version_str file ln pos end_ None w = Raise TypeError w).
Proof.
  intros file end_ ln pos w. split_and!.
  - intros Hf version. unfold set_version_str, mbind, M_bind, bind, read_text.
    by rewrite Hf.
  - intros text Hf Hln version.
    rewrite (set_version_str_eq _ _ _ _ _ _ text Hf).
    unfold set_version_lines, list_index.
    destruct (Z.ltb_spec (ln - 1) 0);
      destruct (Z.leb_spec 0 (ln - 1 + Py.len (Py.readlines text)));
      destruct (Z.ltb_spec (ln - 1 + Py.len (Py.readlines text))
                  (Py.len (Py.readlines text)));
      destruct (Z.leb_spec 0 (ln - 1));
      destruct (Z.ltb_spec (ln - 1) (Py.len (Py.readlines text)));
      simpl; try done; lia.
  - intros text Hf Hln.
    rewrite (set_version_str_eq _ _ _ _ _ _ text Hf).
    unfold set_version_lines.
    destruct (list_index (Py.readlines text) (ln - 1)) as [k|] eqn:Hk.
    + simpl. by destruct (_ || _).
    + exfalso. unfold list_index in Hk.
      destruct (Z.ltb_spec (ln - 1) 0);
        destruct (Z.leb_spec 0 (ln - 1 + Py.len (Py.readlines text)));
        destruct (Z.ltb_spec (ln - 1 + Py.len (Py.readlines text))
                    (Py.len (Py.readlines text)));
        destruct (Z.leb_spec 0 (ln - 1));
        destruct (Z.ltb_spec (ln - 1) (Py.len (Py.readlines text)));
        simpl in Hk; try done; lia.
Qed.

Lemma set_version_str_failure_witness :
  let w := World {[ py "a.txt" := py "v=1.0" ++ [Py.newline] ]} [] in
  set_version_str (py "b.txt") 1 2 [] (Some (py "1.1")) w
    = Raise FileNotFoundError w /\
  set_version_str (py "a.txt") (-1) 2 [] None w = Raise IndexError w /\
  set_version_str (py "a.txt") 1 2 [] None w = Raise TypeError w.
Proof.
  intros w.
  destruct (set_version_str_failure (py "b.txt") [] 1 2 w) as (Hmiss & _ & _).
  destruct (set_version_str_failure (py "a.txt") [] (-1) 2 w) as (_ & Hidx & _).
  destruct (set_version_str_failure (py "a.txt") [] 1 2 w) as (_ & _ & Hty).
  split_and!.
  - apply Hmiss. reflexivity.
  - apply (Hidx (py "v=1.0" ++ [Py.newline])); [reflexivity|].
    vm_compute. left. reflexivity.
  - apply (Hty (py "v=1.0" ++ [Py.newline])); [reflexivity|].
    vm_compute. split; [discriminate|reflexivity].
Defined.

(** X6. A line number below 1 is not rejected.  Extraction returns [None]
    for it.  Rewriting counts it from the end of the file: line number
    [ln <= 0] selects the line of index [ln - 1 + n] of the [n] lines, so
    line number 0 selects the last line, and that line is rewritten as a
    line selected by its number is: the line up to the column, the
    version, and then the line from the terminator on when the terminator
    is given and found, a newline otherwise. *)
Theorem line_number_below_one :
  forall (file text end_ v : str) (ln pos : Z) (w : world),
    files w !! file = Some text ->
    (ln <= 0)%Z ->
    get_version_str file ln pos end_ w = Ret None w /\
    ((0 <= ln - 1 + Py.len (Py.readlines text))%Z ->
     let lines := Py.readlines text in
     let k := Z.to_nat (ln - 1 + Py.len lines) in
     exists line : str,
       lines !! k = Some line /\
       (ln = 0%Z -> last lines = Some line) /\
       set_version_str file ln pos end_ (Some v) w
         = Ret tt
             (World
                (<[file :=
                     Py.universal_newlines
                       (concat
                          (<[k := Py.slice_to line pos ++ v ++
                                  (if Py.truthy end_
                                      && negb (Py.find line end_ pos =? -1)%Z
                                   then Py.slice_from line (Py.find line end_ pos)
                                   else [Py.newline])]> lines))]> (files w))
                (stdout w))).
Proof.
  intros file text end_ v ln pos w Hf Hln. split.
  - rewrite (get_version_str_eq _ _ _ _ _ text Hf), get_version_lines_lookup.
    by destruct (Z.leb_spec 0 (ln - 1)) as [?|_]; [lia|].
  - intros Hge lines k. fold lines in Hge.
    assert (Hk : list_index lines (ln - 1) = Some k).
    { unfold list_index. destruct (Z.ltb_spec (ln - 1) 0) as [_|?]; [|lia].
      destruct (Z.leb_spec 0 (ln - 1 + Py.len lines)) as [_|?]; [|lia].
      by destruct (Z.ltb_spec (ln - 1 + Py.len lines) (Py.len lines)) as [_|?];
        [|lia]. }
    destruct (lines !! k) as [line|] eqn:Hline.
    + exists line. split_and!; [done| |].
      * intros ->. rewrite last_lookup, <- Hline. f_equal.
        subst k. unfold Py.len. lia.
      * rewrite (set_version_str_eq _ _ _ _ _ _ text Hf). fold lines.
        by rewrite (set_version_lines_eq lines ln pos end_ v k line Hk Hline).
    + apply list_index_Some in Hk as [Hlt _]. apply lookup_ge_None in Hline. lia.
Qed.

Lemma line_number_below_one_witness :
  let w := World {[ py "a.txt" := py "a=1" ++ [Py.newline] ++ py "b=2" ++ [Py.newline] ]} [] in
  get_version_str (py "a.txt") 0 2 [] w = Ret None w /\
  set_version_str (py "a.txt") 0 2 [] (Some (py "9")) w
    = Ret tt (World {[ py "a.txt" := py "a=1" ++ [Py.newline] ++ py "b=9" ++ [Py.newline] ]} []).
Proof.
  intros w.
  destruct (line_number_below_one (py "a.txt")
              (py "a=1" ++ [Py.newline] ++ py "b=2" ++ [Py.newline]) [] (py "9")
              0 2 w eq_refl ltac:(lia)) as [Hget Hset].
  split; [exact Hget|].
  destruct (Hset ltac:(vm_compute; discriminate)) as (line & Hline & _ & Hrun).
  injection Hline as <-. rewrite Hrun. reflexivity.
Defined.

(** ** Rewriting what is already there *)

Section RewriteSame.

Implicit Types (line : str) (p e : nat).

Lemma take_take_drop {A} (l : list A) p e :
  (p <= e)%nat -> take p l ++ take (e - p) (drop p l) = take e l.
Proof.
  intros Hpe. rewrite <- (take_drop p l) at 3. rewrite take_app.
  rewrite length_take.
  destruct (decide (p <= length l)%nat) as [Hp|Hp].
  - rewrite take_take. replace (e `min` p)%nat with p by lia.
    by replace (e - p `min` length l)%nat with (e - p)%nat by lia.
  - rewrite (drop_ge l p) by lia. rewrite !take_nil, !app_nil_r.
    rewrite take_take. by replace (e `min` p)%nat with p by lia.
Qed.

End RewriteSame.

(** X7. Rewriting a location with the version that extraction returns
    there, when the terminator is found or, in end-of-line mode, when the
    line ends with a newline and the column is before it: the text is
    written back as it was read.  What the file shows does not change; on
    the disk a file without carriage return is left as it is, and in a file
    with [\r\n] or [\r] line ends these come back as [\n]. *)
Theorem rewrite_extracted_version :
  forall (file raw line end_ v : str) (ln pos : Z)
         (disk : gmap str str) (out : list str),
    disk !! file = Some raw ->
    (1 <= ln)%Z ->
    Py.readlines (Py.universal_newlines raw) !! Z.to_nat (ln - 1) = Some line ->
    (0 <= pos)%Z ->
    get_version_str file ln pos end_ (World (text_layer disk) out)
      = Ret (Some v) (World (text_layer disk) out) ->
    (end_ <> [] /\ Py.find line end_ pos <> (-1)%Z) \/
    (last line = Some Py.newline /\ (pos < Py.len line)%Z) ->
    set_version_str_disk file ln pos end_ (Some v) disk
      = Ok (<[file := Py.universal_newlines raw]> disk) /\
    (Py.cr ∉ raw ->
     set_version_str_disk file ln pos end_ (Some v) disk = Ok disk) /\
    set_version_str file ln pos end_ (Some v) (World (text_layer disk) out)
      = Ret tt (World (text_layer disk) out).
Proof.
  intros file raw line end_ v ln pos disk out Hf Hln Hline Hpos Hget Hmode.
  set (text := Py.universal_newlines raw) in *.
  set (lines := Py.readlines text) in *. set (k := Z.to_nat (ln - 1)) in *.
  assert (Hk : (k < length lines)%nat) by by apply lookup_lt_Some in Hline.
  assert (Hidx : list_index lines (ln - 1) = Some k).
  { apply list_index_in_range. unfold Py.len. lia. }
  assert (Hv : v = version_in_line pos end_ line).
  { rewrite (get_version_str_text_layer _ _ _ _ _ _ raw Hf) in Hget.
    injection Hget as Hget. fold text lines in Hget.
    rewrite get_version_lines_lookup in Hget.
    destruct (Z.leb_spec 0 (ln - 1)) as [_|?]; [|lia].
    rewrite Z.sub_0_r in Hget. fold k in Hget. rewrite Hline in Hget.
    by injection Hget as <-. }
  assert (Hsame : Py.slice_to line pos ++ v ++
            (if Py.truthy end_ && negb (Py.find line end_ pos =? -1)%Z
             then Py.slice_from line (Py.find line end_ pos)
             else [Py.newline]) = line).
  { rewrite slice_to_nonneg by done. subst v. unfold version_in_line.
    assert (Heol : last line = Some Py.newline -> (pos < Py.len line)%Z ->
              take (Z.to_nat pos) line ++ Py.slice line pos (-1) ++ [Py.newline]
              = line).
    { intros [body ->]%last_Some Hlt. rewrite slice_minus_one by done.
      unfold Py.len in Hlt. rewrite length_app in *. simpl in *.
      rewrite app_assoc, take_take_drop by lia.
      replace (length body + 1 - 1)%nat with (length body) by lia.
      by rewrite take_app_length. }
    destruct end_ as [|c end_].
    { simpl. destruct Hmode as [[? _]|[? ?]]; [done|by apply Heol]. }
    cbn [Py.truthy andb]. set (end_' := c :: end_) in *.
    destruct (Z.eqb_spec (Py.find line end_' pos) (-1)) as [Hnone|Hsome]; simpl.
    - rewrite Hnone. destruct Hmode as [[_ ?]|[? ?]]; [done|by apply Heol].
    - destruct (find_some line end_' pos _ eq_refl Hsome)
        as (e & He & Hst & _ & _).
      unfold start_index in Hst.
      destruct (Z.ltb_spec pos 0) as [?|_]; [lia|].
      rewrite He, slice_from_nonneg, slice_nonneg, !Nat2Z.id by lia.
      rewrite app_assoc, take_take_drop by lia. apply take_drop. }
  assert (Hdisk : set_version_str_disk file ln pos end_ (Some v) disk
                  = Ok (<[file := text]> disk)).
  { unfold set_version_str_disk. rewrite Hf. fold text lines.
    rewrite (set_version_lines_eq lines ln pos end_ v k line Hidx Hline).
    rewrite Hsame, list_insert_id by done.
    unfold Py.writelines, lines. by rewrite concat_readlines. }
  split_and!.
  - done.
  - intros Hcr. rewrite Hdisk. subst text.
    by rewrite universal_newlines_id, insert_id.
  - rewrite set_version_str_text_layer, Hdisk. do 2 f_equal.
    unfold text_layer. rewrite fmap_insert. subst text.
    rewrite universal_newlines_idemp. apply insert_id.
    by rewrite lookup_fmap, Hf.
Qed.

Lemma rewrite_extracted_version_witness :
  let disk : gmap str str :=
    {[ py "a.txt" := py "v=<1.0> # x" ++ [Py.cr; Py.newline] ]} in
  set_version_str_disk (py "a.txt") 1 3 (py ">") (Some (py "1.0")) disk
    = Ok (<[ py "a.txt" :=
               Py.universal_newlines (py "v=<1.0> # x" ++ [Py.cr; Py.newline]) ]>
            disk).
Proof.
  intros disk.
  apply (rewrite_extracted_version (py "a.txt")
           (py "v=<1.0> # x" ++ [Py.cr; Py.newline])
           (py "v=<1.0> # x" ++ [Py.newline]) (py ">") (py "1.0") 1 3 disk []);
    [reflexivity|lia|reflexivity|lia|reflexivity|].
  left. split; [done|]. vm_compute. discriminate.
Defined.

(** ** Which files a run touches and what it raises *)

Section Effects.

Context {A B : Type}.
Implicit Types (m : M A) (k : A -> M B) (fs : list str) (P : exn -> Prop).

Lemma touches_only_bind fs m k :
  touches_only fs m -> (forall a, touches_only fs (k a)) ->
  touches_only fs (m ≫= k).
Proof.
  intros Hm Hk w f Hf. specialize (Hm w f Hf).
  unfold mbind, M_bind, bind. destruct (m w) as [a w1|e w1]; simpl in *.
  - by rewrite (Hk a w1 f Hf).
  - done.
Qed.

Lemma touches_only_ret fs (a : A) : touches_only fs (mret a).
Proof. by intros w f _. Qed.

Lemma touches_only_raise fs (e : exn) : touches_only fs (raise e : M A).
Proof. by intros w f _. Qed.

Lemma touches_only_lift fs (r : result A) : touches_only fs (lift r).
Proof. destruct r; [apply touches_only_ret|apply touches_only_raise]. Qed.

Lemma touches_only_mono fs fs' m :
  (forall f, f ∈ fs -> f ∈ fs') -> touches_only fs m -> touches_only fs' m.
Proof. intros Hsub Hm w f Hf. apply Hm. intros Hin. by apply Hf, Hsub. Qed.

Lemma raises_only_bind P m k :
  raises_only P m ->
  (forall w a w1, m w = Ret a w1 -> raises_only P (k a)) ->
  raises_only P (m ≫= k).
Proof.
  intros Hm Hk w w' e [H|(a & w1 & Hr & H)]%bind_Raise.
  - by apply (Hm w w').
  - by apply (Hk w a w1 Hr w1 w').
Qed.

Lemma raises_only_ret P (a : A) : raises_only P (mret a).
Proof. by intros w w' e. Qed.

Lemma raises_only_raise P (e : exn) : P e -> raises_only P (raise e : M A).
Proof. by intros He w w' e' [= <- _]. Qed.

Lemma raises_only_lift P (r : result A) :
  (forall e, r = Err e -> P e) -> raises_only P (lift r).
Proof.
  intros Hr. destruct r as [a|e]; simpl; [apply raises_only_ret|].
  apply raises_only_raise. by apply Hr.
Qed.

Lemma raises_only_impl P (Q : exn -> Prop) m :
  (forall e, P e -> Q e) -> raises_only P m -> raises_only Q m.
Proof. intros HPQ Hm w w' e H. by apply HPQ, (Hm w w'). Qed.

End Effects.

Section DictFacts.

Context {V : Type}.
Implicit Types (d : Dict.t V) (k : str) (v : V).

Lemma dict_get_set_eq d k v : Dict.get (Dict.set d k v) k = Some v.
Proof.
  induction d as [|[k' v'] d IH]; simpl.
  - by destruct (decide (k = k)).
  - destruct (decide (k' = k)) as [->|Hne]; simpl.
    + by destruct (decide (k = k)).
    + by destruct (decide (k' = k)).
Qed.

Lemma dict_get_set_ne d k k' v :
  k <> k' -> Dict.get (Dict.set d k v) k' = Dict.get d k'.
Proof.
  intros Hne. induction d as [|[k0 v0] d IH]; simpl.
  - by destruct (decide (k = k')).
  - destruct (decide (k0 = k)) as [->|Hk0]; simpl.
    + by destruct (decide (k = k')).
    + by destruct (decide (k0 = k')).
Qed.

Lemma dict_set_values d k v x :
  x ∈ Dict.values (Dict.set d k v) -> x = v \/ x ∈ Dict.values d.
Proof.
  unfold Dict.values. induction d as [|[k0 v0] d IH]; simpl.
  - intros ->%list_elem_of_singleton. by left.
  - destruct (decide (k0 = k)) as [->|Hk0]; simpl.
    + intros [->|Hx]%elem_of_cons; [by left|]. right. by right.
    + intros [->|Hx]%elem_of_cons; [right; by left|].
      destruct (IH Hx) as [->|?]; [by left|]. right. by right.
Qed.

End DictFacts.

Section RunEffects.

Implicit Types (w : world) (pc : list file_config) (file name : str)
  (versions : Dict.t (option str)) (config : list (str * list file_config)).

Lemma touches_only_print fs line : touches_only fs (print line).
Proof. by intros w f _. Qed.

Lemma touches_only_read_text fs file : touches_only fs (read_text file).
Proof. intros w f _. unfold read_text. by destruct (files w !! file). Qed.

Lemma touches_only_get_version_str fs file ln pos (end_ : str) :
  touches_only fs (get_version_str file ln pos end_).
Proof.
  apply touches_only_bind; [apply touches_only_read_text|].
  intros text. apply touches_only_ret.
Qed.

Lemma touches_only_set_version_str fs file ln pos (end_ : str) version :
  file ∈ fs -> touches_only fs (set_version_str file ln pos end_ version).
Proof.
  intros Hin. apply touches_only_bind; [apply touches_only_read_text|].
  intros text. apply touches_only_bind; [apply touches_only_lift|].
  intros lines w f Hf. simpl. apply lookup_insert_ne. by intros ->.
Qed.

Lemma touches_only_extract_all fs pc versions :
  touches_only fs (extract_all pc versions).
Proof.
  revert versions. induction pc as [|fc pc IH]; intros versions; simpl.
  - apply touches_only_ret.
  - apply touches_only_bind; [apply touches_only_get_version_str|].
    intros v. apply IH.
Qed.

Lemma touches_only_report_lines fs versions :
  touches_only fs (report_lines versions).
Proof.
  induction versions as [|[name v] versions IH]; simpl;
    [apply touches_only_ret|].
  apply touches_only_bind; [apply touches_only_print|]. by intros _.
Qed.

Lemma touches_only_upgrade_all pc versions highest_version :
  touches_only (package_files pc) (upgrade_all pc versions highest_version).
Proof.
  induction pc as [|fc pc IH]; simpl; [apply touches_only_ret|].
  assert (IH' : touches_only (package_files (fc :: pc))
                  (upgrade_all pc versions highest_version)).
  { eapply touches_only_mono; [|exact IH]. intros f Hf. by right. }
  apply touches_only_bind.
  - unfold version_of. destruct (Dict.get versions (fc_file fc));
      [apply touches_only_ret|apply touches_only_raise].
  - intros v. destruct (decide (v = highest_version)); [done|].
    apply touches_only_bind; [apply touches_only_print|]. intros _.
    apply touches_only_bind; [|by intros _].
    apply touches_only_set_version_str. by left.
Qed.

(** The files that processing a package may write. *)
Lemma touches_only_process_package name pc (upgrade : bool) :
  touches_only (if upgrade then package_files pc else [])
    (process_package name pc upgrade).
Proof.
  apply touches_only_bind; [apply touches_only_extract_all|].
  intros versions. destruct (negb (versions_match versions));
    [|apply touches_only_ret].
  apply touches_only_bind; [apply touches_only_lift|].
  intros highest_version. destruct upgrade.
  - apply touches_only_bind; [apply touches_only_print|]. intros _.
    apply touches_only_bind; [apply touches_only_upgrade_all|]. intros _.
    apply touches_only_bind; [apply touches_only_print|]. intros _.
    apply touches_only_ret.
  - apply touches_only_bind; [|intros _; apply touches_only_ret].
    apply touches_only_bind; [apply touches_only_print|]. intros _.
    apply touches_only_bind; [apply touches_only_report_lines|]. intros _.
    apply touches_only_print.
Qed.

Lemma touches_only_collect_upgrades config (upgrade : bool) upgrades :
  touches_only (if upgrade then config_files config else [])
    (collect_upgrades config upgrade upgrades).
Proof.
  revert upgrades. induction config as [|[name pc] config IH];
    intros upgrades; simpl; [apply touches_only_ret|].
  apply touches_only_bind.
  - eapply touches_only_mono; [|apply touches_only_process_package].
    destruct upgrade; [|done]. intros f Hf. unfold config_files. simpl.
    apply elem_of_app. by left.
  - intros upgrade_to.
    assert (Hrest : forall ups, touches_only
              (if upgrade then config_files ((name, pc) :: config) else [])
              (collect_upgrades config upgrade ups)).
    { intros ups. eapply touches_only_mono; [|apply IH].
      destruct upgrade; [|done]. intros f Hf. unfold config_files. simpl.
      apply elem_of_app. by right. }
    destruct (Py.truthy_opt upgrade_to); apply Hrest.
Qed.

Lemma touches_only_print_upgrades fs upgrades :
  touches_only fs (print_upgrades upgrades).
Proof.
  induction upgrades as [|[name v] upgrades IH]; simpl;
    [apply touches_only_ret|].
  apply touches_only_bind; [apply touches_only_print|]. by intros _.
Qed.

Lemma touches_only_process_config config (upgrade : bool) :
  touches_only (if upgrade then config_files config else [])
    (process_config config upgrade).
Proof.
  apply touches_only_bind; [apply touches_only_collect_upgrades|].
  intros upgrades. destruct (Dict.is_empty upgrades).
  - apply touches_only_bind; [apply touches_only_print|]. intros _.
    apply touches_only_ret.
  - destruct (negb upgrade); [|apply touches_only_raise].
    apply touches_only_bind; [apply touches_only_print|]. intros _.
    apply touches_only_bind; [apply touches_only_print_upgrades|]. intros _.
    apply touches_only_ret.
Qed.

(** What the first loop of [process_package] returns. *)
Lemma extract_all_Ret pc versions w versions' w' :
  extract_all pc versions w = Ret versions' w' ->
  w' = w /\ versions' = extracted w pc versions.
Proof.
  revert versions. induction pc as [|fc pc IH]; intros versions; simpl.
  - by intros [= <- <-].
  - intros (v & w1 & Hget & H)%bind_Ret.
    assert (w1 = w /\ v = location_value w fc) as [-> ->].
    { unfold location_value. destruct (files w !! fc_file fc) as [text|] eqn:Hf.
      - rewrite (get_version_str_eq _ _ _ _ _ text Hf) in Hget.
        by injection Hget as <- <-.
      - by rewrite get_version_str_missing in Hget. }
    by apply IH in H.
Qed.

Lemma extract_all_total pc versions w :
  (forall fc, fc ∈ pc -> is_Some (files w !! fc_file fc)) ->
  extract_all pc versions w = Ret (extracted w pc versions) w.
Proof.
  revert versions. induction pc as [|fc pc IH]; intros versions Hex; simpl;
    [done|].
  destruct (Hex fc ltac:(by left)) as [text Hf].
  unfold mbind, M_bind, bind.
  rewrite (get_version_str_eq _ _ _ _ _ text Hf).
  unfold extracted. simpl. unfold location_value at 2. rewrite Hf.
  apply IH. intros fc' Hfc'. apply Hex. by right.
Qed.

Lemma extracted_keys w pc versions f :
  f ∈ package_files pc \/ is_Some (Dict.get versions f) ->
  is_Some (Dict.get (extracted w pc versions) f).
Proof.
  revert versions. induction pc as [|fc pc IH]; intros versions; simpl.
  - intros [?%elem_of_nil|?]; done.
  - intros [[->|Hin]%elem_of_cons|Hsome]; apply IH.
    + right. by rewrite dict_get_set_eq.
    + by left.
    + right. destruct (decide (fc_file fc = f)) as [->|Hne].
      * by rewrite dict_get_set_eq.
      * by rewrite dict_get_set_ne.
Qed.

Lemma extracted_values w pc versions x :
  x ∈ Dict.values (extracted w pc versions) ->
  x ∈ Dict.values versions \/ exists fc, fc ∈ pc /\ x = location_value w fc.
Proof.
  revert versions. induction pc as [|fc pc IH]; intros versions; simpl.
  - by left.
  - intros [[->|Hx]%dict_set_values|(fc' & Hfc' & ->)]%IH.
    + right. exists fc. split; [by left|done].
    + by left.
    + right. exists fc'. split; [by right|done].
Qed.

Lemma raises_only_extract_all pc versions :
  raises_only (eq FileNotFoundError) (extract_all pc versions).
Proof.
  revert versions. induction pc as [|fc pc IH]; intros versions; simpl.
  - apply raises_only_ret.
  - apply raises_only_bind; [|intros; apply IH].
    apply raises_only_bind; [|intros; apply raises_only_ret].
    intros w w' e. unfold read_text. destruct (files w !! fc_file fc); [done|].
    by intros [= <- _].
Qed.

Lemma raises_only_set_version_str file ln pos (end_ : str) version :
  raises_only run_error (set_version_str file ln pos end_ version).
Proof.
  intros w w' e H. unfold run_error.
  destruct (files w !! file) as [text|] eqn:Hf.
  - rewrite (set_version_str_eq _ _ _ _ _ _ text Hf) in H.
    destruct (set_version_lines (Py.readlines text) ln pos end_ version)
      as [lines|e'] eqn:Hset; [done|]. injection H as -> _.
    unfold set_version_lines, concat_value in Hset.
    destruct (list_index (Py.readlines text) (ln - 1));
      [|injection Hset as <-; tauto].
    destruct version; [by destruct (_ || _)|].
    destruct (_ || _); injection Hset as <-; tauto.
  - unfold set_version_str, mbind, M_bind, bind, read_text in H.
    rewrite Hf in H. injection H as <- _. tauto.
Qed.

Lemma raises_only_upgrade_all pc versions highest_version :
  (forall fc, fc ∈ pc -> is_Some (Dict.get versions (fc_file fc))) ->
  raises_only run_error (upgrade_all pc versions highest_version).
Proof.
  induction pc as [|fc pc IH]; intros Hkeys; simpl; [apply raises_only_ret|].
  destruct (Hkeys fc ltac:(by left)) as [v Hv].
  unfold version_of. rewrite Hv.
  apply raises_only_bind; [apply raises_only_ret|]. intros _ v' _ _.
  assert (IH' : raises_only run_error (upgrade_all pc versions highest_version)).
  { apply IH. intros fc' Hfc'. apply Hkeys. by right. }
  destruct (decide (v' = highest_version)); [done|].
  apply raises_only_bind; [by intros ? ? ?|]. intros _ _ _ _.
  apply raises_only_bind; [apply raises_only_set_version_str|]. by intros.
Qed.

Lemma raises_only_report_lines P versions :
  raises_only P (report_lines versions).
Proof.
  induction versions as [|[name v] versions IH]; simpl;
    [apply raises_only_ret|].
  apply raises_only_bind; [by intros ? ? ?|]. by intros.
Qed.

Lemma raises_only_process_package name pc (upgrade : bool) :
  raises_only (if upgrade then run_error else check_error)
    (process_package name pc upgrade).
Proof.
  apply raises_only_bind.
  { eapply raises_only_impl; [|apply raises_only_extract_all].
    intros e <-. destruct upgrade; unfold run_error, check_error; tauto. }
  intros w versions w1 [_ ->]%extract_all_Ret.
  destruct (negb (versions_match _)); [|apply raises_only_ret].
  apply raises_only_bind.
  { apply raises_only_lift. intros e ->%highest_loop_Err.
    destruct upgrade; unfold run_error, check_error; tauto. }
  intros _ highest_version _ _. destruct upgrade.
  - apply raises_only_bind; [by intros ? ? ?|]. intros _ _ _ _.
    apply raises_only_bind.
    + apply raises_only_upgrade_all. intros fc Hfc. apply extracted_keys.
      left. by apply list_elem_of_fmap_2.
    + intros _ _ _ _. apply raises_only_bind; [by intros ? ? ?|].
      intros. apply raises_only_ret.
  - apply raises_only_bind; [|intros; apply raises_only_ret].
    apply raises_only_bind; [by intros ? ? ?|]. intros _ _ _ _.
    apply raises_only_bind; [apply raises_only_report_lines|].
    by intros _ _ _ _ ? ? ?.
Qed.

Lemma raises_only_collect_upgrades config (upgrade : bool) upgrades :
  raises_only (if upgrade then run_error else check_error)
    (collect_upgrades config upgrade upgrades).
Proof.
  revert upgrades. induction config as [|[name pc] config IH];
    intros upgrades; simpl; [apply raises_only_ret|].
  apply raises_only_bind; [apply raises_only_process_package|].
  intros _ upgrade_to _ _. destruct (Py.truthy_opt upgrade_to); apply IH.
Qed.

Lemma raises_only_print_upgrades P upgrades :
  raises_only P (print_upgrades upgrades).
Proof.
  induction upgrades as [|[name v] upgrades IH]; simpl;
    [apply raises_only_ret|].
  apply raises_only_bind; [by intros ? ? ?|]. by intros.
Qed.

End RunEffects.

(** X8. A run writes to no file that the configuration does not name, also
    when it is aborted by an exception; a run that only checks writes to no
    file at all. *)
Theorem run_touches_only_named_files :
  forall (config : list (str * list file_config)) (upgrade : bool) (w : world),
    (forall f : str,
       f ∉ config_files config ->
       files (world_of (process_config config upgrade w)) !! f = files w !! f) /\
    (upgrade = false ->
     files (world_of (process_config config upgrade w)) = files w).
Proof.
  intros config upgrade w. split.
  - intros f Hf.
    refine (touches_only_mono _ (config_files config) _ _
              (touches_only_process_config config upgrade) w f Hf).
    destruct upgrade; [done|]. by intros ? ?%elem_of_nil.
  - intros ->. apply map_eq. intros f.
    apply (touches_only_process_config config false). apply not_elem_of_nil.
Qed.

Lemma run_touches_only_named_files_witness :
  let config :=
    [(py "pkg", [FileConfig (py "a.txt") 1 2 []; FileConfig (py "b.txt") 1 2 []])] in
  let w := World {[ py "a.txt" := py "v=0.9" ++ [Py.newline];
                    py "b.txt" := py "v=1.0" ++ [Py.newline];
                    py "c.txt" := py "v=0.1" ++ [Py.newline] ]} [] in
  files (world_of (process_config config true w)) !! py "c.txt"
    = Some (py "v=0.1" ++ [Py.newline]) /\
  files (world_of (process_config config false w)) = files w.
Proof.
  intros config w.
  destruct (run_touches_only_named_files config true w) as [Hframe _].
  destruct (run_touches_only_named_files config false w) as [_ Hcheck].
  split.
  - rewrite Hframe; [reflexivity|]. simpl.
    intros [?|[?|?%elem_of_nil]%elem_of_cons]%elem_of_cons; done.
  - by apply Hcheck.
Defined.

(** X9. The lookup [versions[file_name]] of the loop that rewrites never
    misses its key: the first loop of [process_package] has entered every
    file name of the package.  So the loop that rewrites raises no
    [KeyError]. *)
Theorem versions_lookup_never_misses :
  forall (pc : list file_config) (w w1 : world)
         (versions : Dict.t (option str)),
    extract_all pc [] w = Ret versions w1 ->
    (forall fc, fc ∈ pc ->
       exists v : option str,
         forall w2, version_of versions (fc_file fc) w2 = Ret v w2) /\
    (forall (h : option str) (w2 w3 : world) (e : exn),
       upgrade_all pc versions h w2 = Raise e w3 -> e <> KeyError).
Proof.
  intros pc w w1 versions [_ ->]%extract_all_Ret.
  assert (Hkeys : forall fc, fc ∈ pc ->
            is_Some (Dict.get (extracted w pc []) (fc_file fc))).
  { intros fc Hfc. apply extracted_keys. left. by apply list_elem_of_fmap_2. }
  split.
  - intros fc Hfc. destruct (Hkeys fc Hfc) as [v Hv]. exists v. intros w2.
    unfold version_of. by rewrite Hv.
  - intros h w2 w3 e Hrun.
    apply (raises_only_upgrade_all pc _ h Hkeys) in Hrun.
    destruct Hrun as [->|[->| ->]]; discriminate.
Qed.

Lemma versions_lookup_never_misses_witness :
  let w := World {[ py "a.txt" := py "v=0.9" ++ [Py.newline];
                    py "b.txt" := py "v=1.0" ++ [Py.newline] ]} [] in
  let pc := [FileConfig (py "a.txt") 1 2 []; FileConfig (py "b.txt") 1 2 []] in
  exists v : option str,
    forall w2,
      version_of [(py "a.txt", Some (py "0.9")); (py "b.txt", Some (py "1.0"))]
        (py "b.txt") w2 = Ret v w2.
Proof.
  intros w pc.
  apply (proj1 (versions_lookup_never_misses pc w w
                  [(py "a.txt", Some (py "0.9")); (py "b.txt", Some (py "1.0"))]
                  eq_refl) (FileConfig (py "b.txt") 1 2 [])).
  right. by left.
Defined.

(** ** Runs that only check *)

Section CheckRuns.

Implicit Types (w : world) (pc : list file_config) (name : str)
  (versions : Dict.t (option str)) (config : list (str * list file_config)).

Lemma report_lines_eq versions w :
  report_lines versions w
    = Ret tt (World (files w)
                (stdout w ++ ((fun kv => Py.fmt kv.2 ++ py " in " ++ kv.1)
                                <$> versions))).
Proof.
  revert w. induction versions as [|[k v] versions IH]; intros w; simpl.
  - rewrite app_nil_r. by destruct w.
  - unfold mbind, M_bind, bind, print. rewrite IH. simpl.
    by rewrite <- app_assoc.
Qed.

Lemma report_mismatch_eq name versions w :
  report_mismatch name versions w
    = Ret tt (World (files w) (stdout w ++ report_text name versions)).
Proof.
  unfold report_mismatch, mbind, M_bind, bind, print at 1.
  rewrite report_lines_eq. unfold print, report_text. simpl.
  by rewrite <- !app_assoc.
Qed.

Lemma print_upgrades_eq (upgrades : Dict.t (option str)) w :
  print_upgrades upgrades w
    = Ret tt (World (files w)
                (stdout w ++ ((fun kv => kv.1 ++ py " to " ++ Py.fmt kv.2)
                                <$> upgrades))).
Proof.
  revert w. induction upgrades as [|[k v] upgrades IH]; intros w; simpl.
  - rewrite app_nil_r. by destruct w.
  - unfold mbind, M_bind, bind, print. rewrite IH. simpl.
    by rewrite <- app_assoc.
Qed.

(** A package in a run that only checks, once its values are read. *)
Lemma process_package_check name pc w h :
  (forall fc, fc ∈ pc -> is_Some (files w !! fc_file fc)) ->
  get_highest_version (extracted w pc []) = Ok h ->
  process_package name pc false w =
    if versions_match (extracted w pc [])
    then Ret None w
    else Ret h (World (files w)
                  (stdout w ++ report_text name (extracted w pc []))).
Proof.
  intros Hex Hh. unfold process_package, mbind, M_bind, bind.
  rewrite extract_all_total by done.
  destruct (versions_match (extracted w pc [])); simpl; [done|].
  rewrite Hh. simpl. by rewrite report_mismatch_eq.
Qed.

Lemma location_ok_value w fc :
  location_ok w fc -> is_Some (location_value w fc).
Proof.
  intros (text & Hf & Hln). unfold location_value. rewrite Hf.
  rewrite get_version_lines_lookup.
  destruct (Z.leb_spec 0 (fc_line fc - 1)) as [_|?]; [|lia].
  destruct (Py.readlines text !! Z.to_nat (fc_line fc - 1 - 0)) eqn:Hl; [done|].
  apply lookup_ge_None in Hl. unfold Py.len in Hln. lia.
Qed.

Lemma extracted_no_None w pc :
  (forall fc, fc ∈ pc -> location_ok w fc) ->
  None ∉ Dict.values (extracted w pc []).
Proof.
  intros Hok [?%elem_of_nil|(fc & Hfc & Hv)]%extracted_values; [done|].
  destruct (location_ok_value w fc (Hok fc Hfc)) as [v Hsome]. congruence.
Qed.

Lemma highest_no_None versions :
  None ∉ Dict.values versions -> exists h, get_highest_version versions = Ok h.
Proof.
  intros [ss Hss]%all_strings. unfold get_highest_version.
  rewrite Hss, highest_loop_strings. by eexists.
Qed.

Lemma process_package_check_total name pc w :
  (forall fc, fc ∈ pc -> location_ok w fc) ->
  exists r printed,
    process_package name pc false w
      = Ret r (World (files w) (stdout w ++ printed)).
Proof.
  intros Hok.
  destruct (highest_no_None _ (extracted_no_None w pc Hok)) as [h Hh].
  rewrite (process_package_check name pc w h); [|by intros fc (? & -> & _)%Hok|done].
  destruct (versions_match _).
  - exists None, []. rewrite app_nil_r. by destruct w.
  - by eexists _, _.
Qed.

Lemma collect_upgrades_check_total config upgrades w :
  (forall p fc, p ∈ config -> fc ∈ p.2 -> location_ok w fc) ->
  exists ups printed,
    collect_upgrades config false upgrades w
      = Ret ups (World (files w) (stdout w ++ printed)).
Proof.
  revert upgrades w. induction config as [|[name pc] config IH];
    intros upgrades w Hok; simpl.
  - exists upgrades, []. rewrite app_nil_r. by destruct w.
  - destruct (process_package_check_total name pc w) as (r & printed & Hp).
    { intros fc Hfc. apply (Hok (name, pc)); [by left|done]. }
    unfold mbind, M_bind, bind. rewrite Hp.
    set (w1 := World (files w) (stdout w ++ printed)).
    assert (Hok1 : forall p fc, p ∈ config -> fc ∈ p.2 -> location_ok w1 fc).
    { intros p fc Hp' Hfc. apply (Hok p fc); [by right|done]. }
    destruct (Py.truthy_opt r).
    + destruct (IH (Dict.set upgrades name r) w1 Hok1) as (ups & pr & ->).
      exists ups, (printed ++ pr). simpl. by rewrite <- app_assoc.
    + destruct (IH upgrades w1 Hok1) as (ups & pr & ->).
      exists ups, (printed ++ pr). simpl. by rewrite <- app_assoc.
Qed.

End CheckRuns.

Ltac run_steps :=
  repeat (progress (unfold mbind, M_bind, bind, print, ret, mret, M_ret;
                    cbn -[py report_text app])).

(** X10. A run that only checks completes whenever every location names a
    file that can be read (it exists and is UTF-8 text) and a line that the
    file has, and holds a string whose digit runs [int] converts: the run
    returns success, has written to no file, and has only added lines to
    the output. *)
Theorem check_run_completes :
  forall (config : list (str * list file_config)) (w : world),
    (forall p fc, p ∈ config -> fc ∈ p.2 -> location_ok w fc) ->
    (forall p fc, p ∈ config -> fc ∈ p.2 -> value_int_ok w fc) ->
    exists printed : list str,
      process_config config false w
        = Ret true (World (files w) (stdout w ++ printed)).
Proof.
  intros config w Hok _.
  destruct (collect_upgrades_check_total config [] w Hok)
    as (ups & printed & Hcol).
  unfold process_config, mbind, M_bind, bind. rewrite Hcol.
  destruct (Dict.is_empty ups); simpl.
  - eexists. by rewrite <- app_assoc.
  - rewrite print_upgrades_eq. simpl. eexists. by rewrite <- !app_assoc.
Qed.

Lemma check_run_completes_witness :
  let w := World {[ py "a.txt" := py "v=0.9" ++ [Py.newline];
                    py "b.txt" := py "v=1.0" ++ [Py.newline] ]} [] in
  exists printed : list str,
    process_config
      [(py "pkg", [FileConfig (py "a.txt") 1 2 []; FileConfig (py "b.txt") 1 2 []])]
      false w = Ret true (World (files w) (stdout w ++ printed)).
Proof.
  intros w. apply check_run_completes.
  - intros p fc ->%list_elem_of_singleton Hfc. simpl in Hfc.
    apply elem_of_cons in Hfc as [->|Hfc];
      [|apply list_elem_of_singleton in Hfc as ->];
      eexists; (split; [reflexivity|vm_compute; split; discriminate]).
  - intros p fc ->%list_elem_of_singleton Hfc v Hv. simpl in Hfc.
    apply elem_of_cons in Hfc as [->|Hfc];
      [|apply list_elem_of_singleton in Hfc as ->];
      vm_compute in Hv; injection Hv as <-;
      apply (bool_decide_unpack _); vm_compute; reflexivity.
Defined.

(** X11. The output of a run that only checks one package whose values
    differ: the mismatch report (a header, one line per file in the order
    of the dictionary, an empty line), then the suggestion to run with -u
    when the highest version is a non-empty string, and otherwise the line
    [All versions match]. *)
Theorem check_run_report :
  forall (name : str) (pc : list file_config) (w : world) (h : option str),
    (forall fc, fc ∈ pc -> is_Some (files w !! fc_file fc)) ->
    versions_match (extracted w pc []) = false ->
    get_highest_version (extracted w pc []) = Ok h ->
    process_config [(name, pc)] false w =
      Ret true
        (World (files w)
           (stdout w ++ report_text name (extracted w pc []) ++
            (if Py.truthy_opt h
             then [py "Run with -u to automatically upgrade the following packages:";
                   name ++ py " to " ++ Py.fmt h]
             else [py "All versions match"]))).
Proof.
  intros name pc w h Hex Hmis Hh.
  unfold process_config. run_steps.
  rewrite (process_package_check name pc w h Hex Hh), Hmis.
  destruct (Py.truthy_opt h); run_steps; by rewrite <- !app_assoc.
Qed.

Lemma check_run_report_witness :
  let w := World {[ py "a.txt" := py "v=0.9" ++ [Py.newline];
                    py "b.txt" := py "v=1.0" ++ [Py.newline] ]} [] in
  process_config
    [(py "pkg", [FileConfig (py "a.txt") 1 2 []; FileConfig (py "b.txt") 1 2 []])]
    false w
  = Ret true
      (World (files w)
         [py "Version mismatch found in pkg"; py "0.9 in a.txt"; py "1.0 in b.txt";
          []; py "Run with -u to automatically upgrade the following packages:";
          py "pkg to 1.0"]).
Proof.
  intros w.
  rewrite (check_run_report (py "pkg")
             [FileConfig (py "a.txt") 1 2 []; FileConfig (py "b.txt") 1 2 []]
             w (Some (py "1.0"))); [reflexivity| |reflexivity|reflexivity].
  intros fc Hfc.
  apply elem_of_cons in Hfc as [->|Hfc];
    [|apply list_elem_of_singleton in Hfc as ->]; by eexists.
Defined.

(** X12. When the values of a package differ and none of them has a digit,
    a run that only checks prints the mismatch report and then
    [All versions match]: there is no highest version to suggest, and the
    package is not counted as mismatching. *)
Theorem check_run_without_digits :
  forall (name : str) (pc : list file_config) (w : world),
    (forall fc, fc ∈ pc -> exists v, location_value w fc = Some v /\ no_digit v) ->
    versions_match (extracted w pc []) = false ->
    process_config [(name, pc)] false w =
      Ret true
        (World (files w)
           (stdout w ++ report_text name (extracted w pc [])
              ++ [py "All versions match"])).
Proof.
  intros name pc w Hval Hmis.
  assert (Hex : forall fc, fc ∈ pc -> is_Some (files w !! fc_file fc)).
  { intros fc (v & Hv & _)%Hval. unfold location_value in Hv.
    by destruct (files w !! fc_file fc). }
  assert (Hh : get_highest_version (extracted w pc []) = Ok None).
  { assert (Hnone : None ∉ Dict.values (extracted w pc [])).
    { intros [?%elem_of_nil|(fc & Hfc & Hv)]%extracted_values; [done|].
      destruct (Hval fc Hfc) as (v & Hsome & _). congruence. }
    destruct (all_strings _ Hnone) as [ss Hss]. unfold get_highest_version.
    rewrite Hss, highest_loop_strings. f_equal. apply fmap_None.
    apply foldl_highest_step_None. split; [done|]. intros v Hv.
    assert (Hin : Some v ∈ Dict.values (extracted w pc [])).
    { rewrite Hss. by apply list_elem_of_fmap_2. }
    apply extracted_values in Hin as [?%elem_of_nil|(fc & Hfc & Hv')]; [done|].
    destruct (Hval fc Hfc) as (v' & Hsome & Hno).
    apply tokens_no_digit. congruence. }
  unfold process_config. run_steps.
  rewrite (process_package_check name pc w None Hex Hh), Hmis.
  run_steps. by rewrite <- !app_assoc.
Qed.

Lemma check_run_without_digits_witness :
  let w := World {[ py "a.txt" := py "v=alpha" ++ [Py.newline];
                    py "b.txt" := py "v=beta" ++ [Py.newline] ]} [] in
  process_config
    [(py "pkg", [FileConfig (py "a.txt") 1 2 []; FileConfig (py "b.txt") 1 2 []])]
    false w
  = Ret true
      (World (files w)
         [py "Version mismatch found in pkg"; py "alpha in a.txt";
          py "beta in b.txt"; []; py "All versions match"]).
Proof.
  intros w.
  rewrite (check_run_without_digits (py "pkg")
             [FileConfig (py "a.txt") 1 2 []; FileConfig (py "b.txt") 1 2 []] w);
    [reflexivity| |reflexivity].
  intros fc Hfc.
  apply elem_of_cons in Hfc as [->|Hfc];
    [|apply list_elem_of_singleton in Hfc as ->];
    eexists; (split; [reflexivity|]); by repeat constructor.
Defined.

(** ** Runs on packages whose locations agree *)

Section MatchingRuns.

Implicit Types (w : world) (pc : list file_config) (name h : str)
  (versions : Dict.t (option str)) (config : list (str * list file_config)).

Lemma location_value_local w1 w2 fc :
  files w1 !! fc_file fc = files w2 !! fc_file fc ->
  location_value w1 fc = location_value w2 fc.
Proof. intros H. unfold location_value. by rewrite H. Qed.

Lemma location_value_file w fc v :
  location_value w fc = Some v -> is_Some (files w !! fc_file fc).
Proof. unfold location_value. by destruct (files w !! fc_file fc). Qed.

Lemma values_all_equal (vs : list (option str)) h :
  (forall x, x ∈ vs -> x = Some h) -> versions_match_loop vs None = true.
Proof.
  intros Hall. apply versions_match_loop_None. exists 0%nat, (length vs), h.
  simpl. induction vs as [|x vs IH]; simpl; [done|].
  rewrite (Hall x) by by left. f_equal. apply IH. intros y Hy. apply Hall.
  by right.
Qed.

Lemma extracted_all_hold w pc h :
  all_hold w pc h -> versions_match (extracted w pc []) = true.
Proof.
  intros Hall. apply (values_all_equal _ h).
  intros x [?%elem_of_nil|(fc & Hfc & ->)]%extracted_values; [done|].
  by apply Hall.
Qed.

(** A package whose locations agree is left alone, in either mode. *)
Lemma process_package_all_hold name pc (upgrade : bool) w h :
  all_hold w pc h -> process_package name pc upgrade w = Ret None w.
Proof.
  intros Hall. unfold process_package, mbind, M_bind, bind.
  rewrite extract_all_total.
  - by rewrite (extracted_all_hold w pc h Hall).
  - intros fc Hfc. by eapply location_value_file, Hall.
Qed.

Lemma collect_upgrades_all_hold config (upgrade : bool) upgrades w :
  (forall p, p ∈ config -> exists h, all_hold w p.2 h) ->
  collect_upgrades config upgrade upgrades w = Ret upgrades w.
Proof.
  induction config as [|[name pc] config IH]; intros Hall; simpl; [done|].
  destruct (Hall (name, pc) ltac:(by left)) as [h Hh].
  unfold mbind, M_bind, bind.
  rewrite (process_package_all_hold name pc upgrade w h Hh). simpl.
  apply IH. intros p Hp. apply Hall. by right.
Qed.

End MatchingRuns.

(** X13. When, in every package, all locations hold one and the same
    string, a run in either mode prints the single line
    [All versions match], returns success and leaves the files as they
    are. *)
Theorem matching_run :
  forall (config : list (str * list file_config)) (upgrade : bool) (w : world),
    (forall p, p ∈ config -> exists h, all_hold w p.2 h) ->
    process_config config upgrade w
      = Ret true (World (files w) (stdout w ++ [py "All versions match"])).
Proof.
  intros config upgrade w Hall. unfold process_config, mbind, M_bind, bind.
  by rewrite collect_upgrades_all_hold.
Qed.

Lemma matching_run_witness :
  let w := World {[ py "a.txt" := py "v=1.0" ++ [Py.newline];
                    py "b.txt" := py "V: 1.0;" ]} [] in
  process_config
    [(py "pkg", [FileConfig (py "a.txt") 1 2 []; FileConfig (py "b.txt") 1 3 (py ";")])]
    true w
  = Ret true (World (files w) [py "All versions match"]).
Proof.
  intros w. apply matching_run.
  intros p Hp. apply list_elem_of_singleton in Hp as ->. exists (py "1.0").
  intros fc Hfc. simpl in Hfc.
  apply elem_of_cons in Hfc as [->|Hfc];
    [|apply list_elem_of_singleton in Hfc as ->]; reflexivity.
Defined.

(** ** Runs that upgrade *)

Section UpgradeEach.

(** The loop of [process_package] that rewrites, for locations in files of
    their own: a property [P] that makes each rewrite succeed and
    establish [Q], both depending on the file of the location only. *)
Variables (versions : Dict.t (option str)) (h : str).
Variables (P Q : world -> file_config -> Prop).

Hypothesis P_local : forall w1 w2 fc,
  files w1 !! fc_file fc = files w2 !! fc_file fc -> P w1 fc -> P w2 fc.
Hypothesis Q_local : forall w1 w2 fc,
  files w1 !! fc_file fc = files w2 !! fc_file fc -> Q w1 fc -> Q w2 fc.
Hypothesis P_key : forall w fc,
  P w fc -> is_Some (Dict.get versions (fc_file fc)).
Hypothesis P_skip : forall w fc,
  P w fc -> Dict.get versions (fc_file fc) = Some (Some h) -> Q w fc.
Hypothesis P_rewrite : forall w fc,
  P w fc -> Dict.get versions (fc_file fc) <> Some (Some h) ->
  exists text' : str,
    set_version_str (fc_file fc) (fc_line fc) (fc_char fc) (fc_end fc)
      (Some h) w
    = Ret tt (World (<[fc_file fc := text']> (files w)) (stdout w)) /\
    Q (World (<[fc_file fc := text']> (files w)) (stdout w)) fc.

Lemma upgrade_all_each (pc : list file_config) (w : world) :
  NoDup (package_files pc) ->
  (forall fc, fc ∈ pc -> P w fc) ->
  exists w' : world,
    upgrade_all pc versions (Some h) w = Ret tt w' /\
    (forall fc, fc ∈ pc -> Q w' fc) /\
    (forall f, f ∉ package_files pc -> files w' !! f = files w !! f) /\
    stdout w' =
      stdout w ++
      ((fun fc => py "  Updated " ++ fc_file fc) <$>
         filter (fun fc => Dict.get versions (fc_file fc) <> Some (Some h)) pc).
Proof.
  revert w. induction pc as [|fc pc IH]; intros w Hnd HP.
  { exists w. split_and!; [done|by intros fc ?%elem_of_nil|done|].
    by rewrite app_nil_r. }
  simpl in Hnd. apply NoDup_cons in Hnd as [Hfresh Hnd].
  assert (Hfc : P w fc) by (apply HP; by left).
  destruct (P_key w fc Hfc) as [v Hv].
  cbn [upgrade_all]. unfold version_of. rewrite Hv.
  unfold mbind at 1, M_bind, bind at 1. cbn [ret].
  destruct (decide (v = Some h)) as [->|Hne].
  - destruct (IH w Hnd) as (w' & Hrun & HQ & Hframe & Hout).
    { intros fc' Hfc'. apply HP. by right. }
    exists w'. split_and!; [done| | |].
    + intros fc' [->|Hfc']%elem_of_cons; [|by apply HQ].
      apply (Q_local w); [by rewrite Hframe|]. by apply P_skip.
    + intros f Hf. apply Hframe. intros Hin. apply Hf. by right.
    + rewrite filter_cons_False; [done|]. by intros Hn.
  - assert (Hne' : Dict.get versions (fc_file fc) <> Some (Some h)).
    { rewrite Hv. by intros [= ->]. }
    set (w1 := World (files w) (stdout w ++ [py "  Updated " ++ fc_file fc])).
    destruct (P_rewrite w1 fc) as (text' & Hset & HQfc); [|done|].
    { by apply (P_local w). }
    set (w2 := World (<[fc_file fc := text']> (files w1)) (stdout w1)) in *.
    destruct (IH w2 Hnd) as (w' & Hrun & HQ & Hframe & Hout).
    { intros fc' Hfc'. apply (P_local w); [|apply HP; by right].
      simpl. rewrite lookup_insert_ne; [done|]. intros Heq. apply Hfresh.
      rewrite Heq. by apply list_elem_of_fmap_2. }
    exists w'. split_and!.
    + unfold mbind, M_bind, bind, print. fold w1. rewrite Hset. exact Hrun.
    + intros fc' [->|Hfc']%elem_of_cons; [|by apply HQ].
      apply (Q_local w2); [by rewrite Hframe|done].
    + intros f Hf. rewrite Hframe by (intros Hin; apply Hf; by right).
      simpl. apply lookup_insert_ne. intros <-. apply Hf. by left.
    + rewrite filter_cons_True by done. rewrite Hout. simpl.
      by rewrite <- app_assoc.
Qed.

End UpgradeEach.

Section UpgradeRuns.

Implicit Types (w : world) (pc : list file_config) (name h : str)
  (versions : Dict.t (option str)) (config : list (str * list file_config)).

Lemma location_ok_local w1 w2 fc :
  files w1 !! fc_file fc = files w2 !! fc_file fc ->
  location_ok w1 fc -> location_ok w2 fc.
Proof. intros H (text & Hf & Hln). exists text. by rewrite <- H. Qed.

Lemma has_version_local w1 w2 fc :
  files w1 !! fc_file fc = files w2 !! fc_file fc ->
  has_version w1 fc -> has_version w2 fc.
Proof.
  intros H (v & Hv & Hd). exists v.
  by rewrite <- (location_value_local w1 w2 fc H).
Qed.

Lemma has_version_ok w fc : has_version w fc -> location_ok w fc.
Proof.
  intros (v & Hv & _). unfold location_value in Hv.
  destruct (files w !! fc_file fc) as [text|] eqn:Hf; [|done].
  exists text. split; [done|]. rewrite get_version_lines_lookup in Hv.
  destruct (Z.leb_spec 0 (fc_line fc - 1)) as [Hle|?]; [|done].
  destruct (Py.readlines text !! Z.to_nat (fc_line fc - 1 - 0)) eqn:Hl; [|done].
  apply lookup_lt_Some in Hl. unfold Py.len. lia.
Qed.

(** Rewriting a location that is there succeeds. *)
Lemma set_version_str_total w fc h :
  location_ok w fc ->
  exists text' : str,
    set_version_str (fc_file fc) (fc_line fc) (fc_char fc) (fc_end fc)
      (Some h) w
    = Ret tt (World (<[fc_file fc := text']> (files w)) (stdout w)).
Proof.
  intros (text & Hf & Hln).
  pose proof (list_index_in_range (Py.readlines text) (fc_line fc) Hln) as Hk.
  destruct (Py.readlines text !! Z.to_nat (fc_line fc - 1)) as [line|] eqn:Hl.
  - rewrite (set_version_str_eq _ _ _ _ _ _ text Hf).
    rewrite (set_version_lines_eq _ _ _ _ h _ line Hk Hl). by eexists.
  - apply lookup_ge_None in Hl. unfold Py.len in Hln. lia.
Qed.

(** In a package with one location per file, the dictionary holds the
    value of each location. *)
Lemma extracted_get w pc versions fc :
  NoDup (package_files pc) -> fc ∈ pc ->
  Dict.get (extracted w pc versions) (fc_file fc) = Some (location_value w fc).
Proof.
  revert versions. induction pc as [|fc' pc IH]; intros versions Hnd Hfc;
    [by apply elem_of_nil in Hfc|].
  simpl in Hnd. apply NoDup_cons in Hnd as [Hfresh Hnd]. simpl.
  apply elem_of_cons in Hfc as [->|Hfc]; [|by apply IH].
  clear IH. revert versions.
  assert (Hkeep : forall pc' d,
            (forall fc0, fc0 ∈ pc' -> fc_file fc0 <> fc_file fc') ->
            Dict.get (extracted w pc' d) (fc_file fc') = Dict.get d (fc_file fc')).
  { induction pc' as [|fc0 pc' IH']; intros d Hne; simpl; [done|].
    rewrite IH' by (intros ? ?; apply Hne; by right).
    apply dict_get_set_ne, Hne. by left. }
  intros versions. rewrite Hkeep; [apply dict_get_set_eq|].
  intros fc0 Hfc0 Heq. apply Hfresh. rewrite <- Heq.
  by apply list_elem_of_fmap_2.
Qed.

Lemma dict_get_values {V} (d : Dict.t V) (k : str) (v : V) :
  Dict.get d k = Some v -> v ∈ Dict.values d.
Proof.
  unfold Dict.values. induction d as [|[k' v'] d IH]; simpl; [done|].
  destruct (decide (k' = k)); [intros [= ->]; by left|].
  intros H. right. by apply IH.
Qed.

(** The highest version of a package whose values differ and all have a
    digit. *)
Lemma highest_of_package w pc :
  (forall fc, fc ∈ pc -> has_version w fc) ->
  versions_match (extracted w pc []) = false ->
  exists h fc0,
    get_highest_version (extracted w pc []) = Ok (Some h) /\
    fc0 ∈ pc /\ location_value w fc0 = Some h.
Proof.
  intros Hval Hmis.
  assert (Hnone : None ∉ Dict.values (extracted w pc [])).
  { intros [?%elem_of_nil|(fc & Hfc & Hv)]%extracted_values; [done|].
    destruct (Hval fc Hfc) as (v & Hsome & _). congruence. }
  destruct (all_strings _ Hnone) as [ss Hss].
  unfold get_highest_version. rewrite Hss, highest_loop_strings.
  assert (Hok : state_ok ss (foldl highest_step None ss)).
  { by apply foldl_highest_step_ok. }
  destruct (foldl highest_step None ss) as [[hv hs]|] eqn:Hfold.
  - destruct (Hok hv hs eq_refl) as (_ & _ & Hin).
    assert (Hin' : Some hs ∈ Dict.values (extracted w pc [])).
    { rewrite Hss. by apply list_elem_of_fmap_2. }
    apply extracted_values in Hin' as [?%elem_of_nil|(fc0 & Hfc0 & Hv)]; [done|].
    by exists hs, fc0.
  - exfalso. apply foldl_highest_step_None in Hfold as [_ Hall].
    destruct ss as [|v ss].
    + unfold versions_match in Hmis. by rewrite Hss in Hmis.
    + assert (Hin' : Some v ∈ Dict.values (extracted w pc [])).
      { rewrite Hss. by left. }
      apply extracted_values in Hin' as [?%elem_of_nil|(fc & Hfc & Hv)]; [done|].
      destruct (Hval fc Hfc) as (v' & Hsome & Hd & _). apply Hd.
      apply tokens_nil_no_digit. rewrite <- Hv in Hsome.
      injection Hsome as <-. apply Hall. by left.
Qed.

(** A package in upgrade mode, for a loop that rewrites as
    [upgrade_all_each] says. *)
Lemma process_package_upgrade_run name pc w h w1 :
  (forall fc, fc ∈ pc -> is_Some (files w !! fc_file fc)) ->
  versions_match (extracted w pc []) = false ->
  get_highest_version (extracted w pc []) = Ok (Some h) ->
  upgrade_all pc (extracted w pc []) (Some h)
    (World (files w)
       (stdout w ++ [py "Upgrading " ++ name ++ py " to version " ++ h]))
    = Ret tt w1 ->
  process_package name pc true w
    = Ret None (World (files w1) (stdout w1 ++ [[]])).
Proof.
  intros Hex Hmis Hh Hup. unfold process_package, mbind, M_bind, bind.
  rewrite extract_all_total by done. rewrite Hmis. cbn [negb]. rewrite Hh.
  cbn [lift ret print Py.fmt files stdout]. by rewrite Hup.
Qed.

Lemma process_package_upgrade_total name pc w :
  NoDup (package_files pc) ->
  (forall fc, fc ∈ pc -> has_version w fc) ->
  exists w' : world, process_package name pc true w = Ret None w'.
Proof.
  intros Hnd Hval.
  assert (Hex : forall fc, fc ∈ pc -> is_Some (files w !! fc_file fc)).
  { intros fc (v & Hv & _)%Hval. by eapply location_value_file. }
  destruct (versions_match (extracted w pc [])) eqn:Hmis.
  { exists w. unfold process_package, mbind, M_bind, bind.
    rewrite extract_all_total by done. by rewrite Hmis. }
  destruct (highest_of_package w pc Hval Hmis) as (h & _ & Hh & _).
  set (w0 := World (files w)
               (stdout w ++ [py "Upgrading " ++ name ++ py " to version " ++ h])).
  destruct (upgrade_all_each (extracted w pc []) h
              (fun w fc => location_ok w fc /\
                           is_Some (Dict.get (extracted w0 pc []) (fc_file fc)))
              (fun _ _ => True)) with (pc := pc) (w := w0)
    as (w1 & Hup & _ & _).
  - intros w1 w2 fc Hf [Hok Hkey]. split; [by apply (location_ok_local w1)|done].
  - done.
  - by intros w' fc [_ Hkey].
  - done.
  - intros w' fc [Hok _] _. destruct (set_version_str_total w' fc h Hok) as [t Ht].
    by exists t.
  - done.
  - intros fc Hfc. split.
    + apply (location_ok_local w); [done|]. by apply has_version_ok, Hval.
    + apply extracted_keys. left. by apply list_elem_of_fmap_2.
  - eexists. by apply (process_package_upgrade_run name pc w h w1).
Qed.

End UpgradeRuns.

Section UpgradeResolves.

Implicit Types (w : world) (pc : list file_config) (name h line : str)
  (versions : Dict.t (option str)) (config : list (str * list file_config)).

(** Whatever the upper bound of the extracted slice is, it is before the
    last character of the line. *)
Lemma version_in_line_nonempty line (pos : Z) (end_ : str) :
  (0 <= pos)%Z -> version_in_line pos end_ line <> [] ->
  (pos < Py.len line - 1)%Z.
Proof.
  intros Hpos Hne.
  assert (Hslice : forall hi,
            (Py.adjust (Py.len line) hi <= Z.max 0 (Py.len line - 1))%Z ->
            Py.slice line pos hi <> [] -> (pos < Py.len line - 1)%Z).
  { intros hi Hhi Hs. unfold Py.slice in Hs.
    destruct (decide (Z.to_nat (Py.adjust (Py.len line) hi
                                - Py.adjust (Py.len line) pos) = 0%nat))
      as [H0|H0]; [by rewrite H0 in Hs|].
    unfold Py.adjust at 2 in H0. unfold Py.len in *.
    destruct (Z.ltb_spec pos 0); lia. }
  assert (Heol : (Py.adjust (Py.len line) (-1) <= Z.max 0 (Py.len line - 1))%Z).
  { unfold Py.adjust. simpl. lia. }
  unfold version_in_line in Hne. destruct end_ as [|c end_]; [by eapply Hslice|].
  cbn [Py.truthy] in Hne. set (end_' := c :: end_) in *.
  destruct (decide (Py.find line end_' pos = (-1)%Z)) as [Hnone|Hsome].
  { rewrite Hnone in Hne. by eapply Hslice. }
  destruct (find_some line end_' pos _ eq_refl Hsome)
    as (e & He & _ & [Hle [t Ht]] & _).
  refine (Hslice _ _ Hne). rewrite He.
  apply (f_equal length) in Ht. rewrite length_drop, length_app in Ht.
  simpl in Ht. unfold Py.adjust, Py.len.
  destruct (Z.ltb_spec (Z.of_nat e) 0); lia.
Qed.

(** The line that rewriting puts in place of a well-formed line, and what
    extraction finds in it. *)
Lemma rewritten_line (lines : list str) (ln pos : Z) (end_ v : str)
    (k : nat) line (final : bool) :
  list_index lines (ln - 1) = Some k -> lines !! k = Some line ->
  line_ok final line ->
  (0 <= pos <= Py.len line)%Z ->
  Py.newline ∉ take (Z.to_nat pos) line ->
  Py.newline ∉ v -> Py.newline ∉ end_ ->
  (end_ <> [] -> starts_nowhere_in end_ v) ->
  exists new_line : str,
    set_version_lines lines ln pos end_ (Some v) = Ok (<[k := new_line]> lines) /\
    line_ok final new_line /\
    version_in_line pos end_ new_line = v.
Proof.
  intros Hidx Hline Hok Hpos Hpre Hv Hend Hno.
  set (p := Z.to_nat pos) in *.
  assert (Hp : length (take p line) = p).
  { rewrite length_take. unfold Py.len in Hpos. lia. }
  rewrite (set_version_lines_eq lines ln pos end_ v k line Hidx Hline).
  rewrite slice_to_nonneg by lia. fold p.
  eexists. split; [done|].
  replace pos with (Z.of_nat (length (take p line))) at 3 by lia.
  destruct end_ as [|c end_].
  { simpl. split.
    - rewrite app_assoc. apply line_ok_newline. by apply not_elem_of_app.
    - apply version_in_line_eol. by left. }
  set (end_' := c :: end_) in *. cbn [Py.truthy andb].
  specialize (Hno ltac:(done)).
  destruct (Z.eqb_spec (Py.find line end_' pos) (-1)) as [Hnone|Hsome]; simpl.
  - split.
    + rewrite app_assoc. apply line_ok_newline. by apply not_elem_of_app.
    + apply version_in_line_eol. by right.
  - destruct (find_some line end_' pos _ eq_refl Hsome)
      as (e & He & Hst & [Hle [t Ht]] & _).
    rewrite He, slice_from_nonneg, Nat2Z.id by lia.
    assert (Helt : (e < length line)%nat).
    { apply (f_equal length) in Ht.
      rewrite length_drop, length_app in Ht. simpl in Ht. lia. }
    split.
    + rewrite app_assoc. apply line_ok_keep_end; [done|done|].
      by apply not_elem_of_app.
    + rewrite Ht. by apply version_in_line_found.
Qed.

Lemma location_value_no_newline w fc v :
  location_value w fc = Some v -> Py.newline ∉ v.
Proof.
  unfold location_value. destruct (files w !! fc_file fc) as [text|]; [|done].
  rewrite get_version_lines_lookup.
  destruct (0 <=? fc_line fc - 1)%Z; [|done].
  destruct (Py.readlines text !! Z.to_nat (fc_line fc - 1 - 0)) as [line|] eqn:Hl;
    [|done].
  intros [= <-]. eapply version_in_line_no_newline.
  eapply lines_ok_lookup; [apply readlines_ok|done].
Qed.

(** The characters of the string that a location holds are characters of
    its file. *)
Lemma location_value_chars w fc (v text : str) (c : ascii) :
  files w !! fc_file fc = Some text -> location_value w fc = Some v ->
  c ∈ v -> c ∈ text.
Proof.
  intros Hf. unfold location_value. rewrite Hf, get_version_lines_lookup.
  destruct (0 <=? fc_line fc - 1)%Z; [|done].
  destruct (Py.readlines text !! Z.to_nat (fc_line fc - 1 - 0)) as [line|] eqn:Hl;
    [|done].
  intros [= <-] Hc.
  assert (Hline : c ∈ line).
  { assert (Hs : forall hi, c ∈ Py.slice line (fc_char fc) hi -> c ∈ line).
    { intros hi Hin. unfold Py.slice in Hin.
      by apply subseteq_take, subseteq_drop in Hin. }
    unfold version_in_line in Hc. destruct (Py.truthy (fc_end fc)); eauto. }
  rewrite <- (concat_readlines text), (concat_around _ _ _ Hl), !elem_of_app.
  tauto.
Qed.

(** Rewriting a ready location with [h] succeeds, and the location then
    holds [h]. *)
Lemma rewrite_location w fc h :
  location_ready w fc ->
  text_shown w fc ->
  Py.newline ∉ h ->
  Py.cr ∉ h ->
  (fc_end fc <> [] -> starts_nowhere_in (fc_end fc) h) ->
  exists text' : str,
    set_version_str (fc_file fc) (fc_line fc) (fc_char fc) (fc_end fc)
      (Some h) w
    = Ret tt (World (<[fc_file fc := text']> (files w)) (stdout w)) /\
    (Py.cr ∉ text') /\
    location_value (World (<[fc_file fc := text']> (files w)) (stdout w)) fc
    = Some h.
Proof.
  intros ((v & Hv & Hd & _) & Hpos & Hend) Hshown Hh Hcr Hno.
  destruct fc as [file ln pos end_]. unfold text_shown in Hshown. simpl in *.
  unfold location_value in Hv. simpl in Hv.
  destruct (files w !! file) as [text|] eqn:Hf; [|done].
  specialize (Hshown text eq_refl).
  rewrite get_version_lines_lookup in Hv.
  destruct (Z.leb_spec 0 (ln - 1)) as [Hln|?]; [|done].
  rewrite Z.sub_0_r in Hv.
  set (lines := Py.readlines text) in *. set (k := Z.to_nat (ln - 1)) in *.
  destruct (lines !! k) as [line|] eqn:Hline; [|done].
  injection Hv as Hv.
  assert (Hk : (k < length lines)%nat) by by apply lookup_lt_Some in Hline.
  assert (Hidx : list_index lines (ln - 1) = Some k).
  { apply list_index_in_range. unfold Py.len. lia. }
  pose proof (lines_ok_lookup lines k line (readlines_ok text) Hline) as Hok.
  assert (Hcol : (pos < Py.len line - 1)%Z).
  { apply (version_in_line_nonempty line pos end_); [done|].
    rewrite Hv. intros ->. apply Hd. constructor. }
  destruct (rewritten_line lines ln pos end_ h k line _ Hidx Hline Hok)
    as (new_line & Hset & Hnok & Hver); try done.
  { lia. }
  { apply (line_ok_take _ line _ Hok). unfold Py.len in Hcol. lia. }
  assert (Hnocr : Py.cr ∉ concat (<[k := new_line]> lines)).
  { apply (set_version_lines_no_cr lines _ ln pos end_ h); [|done|done].
    subst lines. by rewrite concat_readlines. }
  eexists. split_and!.
  - rewrite (set_version_str_eq _ _ _ _ _ _ text Hf). fold lines.
    by rewrite Hset.
  - apply universal_newlines_no_cr.
  - unfold location_value. simpl. rewrite lookup_insert_eq.
    unfold Py.writelines. rewrite universal_newlines_id by done.
    rewrite readlines_concat
      by (apply lines_ok_insert; [apply readlines_ok|done|done]).
    rewrite get_version_lines_lookup.
    destruct (Z.leb_spec 0 (ln - 1)) as [_|?]; [|lia].
    rewrite Z.sub_0_r. fold k.
    rewrite list_lookup_insert_eq by done. simpl. by rewrite Hver.
Qed.

Lemma text_shown_local w1 w2 fc :
  files w1 !! fc_file fc = files w2 !! fc_file fc ->
  text_shown w1 fc -> text_shown w2 fc.
Proof. intros H Hs text Hf. apply Hs. by rewrite H. Qed.

Lemma location_ready_local w1 w2 fc :
  files w1 !! fc_file fc = files w2 !! fc_file fc ->
  location_ready w1 fc -> location_ready w2 fc.
Proof.
  intros H (Hv & Hpos & Hend). split; [by apply (has_version_local w1)|done].
Qed.

Lemma all_hold_local w1 w2 pc h :
  (forall fc, fc ∈ pc -> files w1 !! fc_file fc = files w2 !! fc_file fc) ->
  all_hold w1 pc h -> all_hold w2 pc h.
Proof.
  intros H Hall fc Hfc.
  rewrite <- (location_value_local w1 w2 fc (H fc Hfc)). by apply Hall.
Qed.

(** A package of ready locations in files of their own: upgrading it
    leaves all its locations with one string. *)
Lemma process_package_upgrade_resolves name pc w :
  NoDup (package_files pc) ->
  (forall fc, fc ∈ pc -> location_ready w fc) ->
  (forall fc, fc ∈ pc -> text_shown w fc) ->
  terminators_clear w pc ->
  exists (w' : world) (h : str),
    process_package name pc true w = Ret None w' /\ all_hold w' pc h.
Proof.
  intros Hnd Hready Hshown Hclear.
  assert (Hval : forall fc, fc ∈ pc -> has_version w fc).
  { intros fc Hfc. by apply Hready. }
  assert (Hex : forall fc, fc ∈ pc -> is_Some (files w !! fc_file fc)).
  { intros fc (v & Hv & _)%Hval. by eapply location_value_file. }
  destruct (versions_match (extracted w pc [])) eqn:Hmis.
  { (* the values agree already *)
    apply versions_match_loop_None in Hmis as (n & m & b & Hvals).
    exists w, b. split.
    - unfold process_package, mbind, M_bind, bind.
      rewrite extract_all_total by done.
      replace (versions_match (extracted w pc [])) with true; [done|].
      symmetry. apply versions_match_loop_None. by exists n, m, b.
    - intros fc Hfc. destruct (Hval fc Hfc) as (v & Hv & _).
      pose proof (extracted_get w pc [] fc Hnd Hfc) as Hget.
      apply dict_get_values in Hget. rewrite Hvals, Hv in Hget.
      apply elem_of_app in Hget as [Hin|Hin];
        apply elem_of_replicate in Hin as [Heq _]; [done|by rewrite Hv]. }
  destruct (highest_of_package w pc Hval Hmis) as (h & fc0 & Hh & Hfc0 & Hv0).
  pose proof (location_value_no_newline w fc0 h Hv0) as Hnl.
  assert (Hcr : Py.cr ∉ h).
  { destruct (Hex fc0 Hfc0) as [text0 Hf0]. intros Hin.
    apply (Hshown fc0 Hfc0 text0 Hf0).
    by apply (location_value_chars w fc0 h text0). }
  set (versions := extracted w pc []) in *.
  set (w0 := World (files w)
               (stdout w ++ [py "Upgrading " ++ name ++ py " to version " ++ h])).
  destruct (upgrade_all_each versions h
              (fun w fc =>
                 location_ready w fc /\ text_shown w fc /\
                 (fc_end fc <> [] -> starts_nowhere_in (fc_end fc) h) /\
                 Dict.get versions (fc_file fc) = Some (location_value w fc))
              (fun w fc => location_value w fc = Some h)) with (pc := pc) (w := w0)
    as (w1 & Hup & Hall & _).
  - intros w1 w2 fc Hf (Hr & Hs & Ht & Hg). split_and!; [| |done|].
    + by apply (location_ready_local w1).
    + by apply (text_shown_local w1).
    + by rewrite <- (location_value_local w1 w2 fc Hf).
  - intros w1 w2 fc Hf Hq. by rewrite <- (location_value_local w1 w2 fc Hf).
  - intros w' fc (_ & _ & _ & Hg). by rewrite Hg.
  - intros w' fc (_ & _ & _ & Hg) Hg'. rewrite Hg in Hg'. by injection Hg'.
  - intros w' fc (Hr & Hs & Ht & _) _.
    destruct (rewrite_location w' fc h Hr Hs Hnl Hcr Ht) as (t & Hset & _ & Hq).
    by exists t.
  - done.
  - intros fc Hfc. split_and!.
    + by apply (location_ready_local w), Hready.
    + by apply (text_shown_local w), Hshown.
    + intros Hne. by apply (Hclear fc fc0 h).
    + rewrite (location_value_local w0 w fc) by done. by apply extracted_get.
  - exists (World (files w1) (stdout w1 ++ [[]])), h. split.
    + by apply (process_package_upgrade_run name pc w h w1).
    + by apply (all_hold_local w1).
Qed.

Lemma process_package_frame name pc w r w' f :
  process_package name pc true w = Ret r w' ->
  f ∉ package_files pc -> files w' !! f = files w !! f.
Proof.
  intros Hrun Hf.
  pose proof (touches_only_process_package name pc true w f Hf) as H.
  by rewrite Hrun in H.
Qed.

Lemma config_files_cons name pc config f :
  f ∈ config_files ((name, pc) :: config) <->
  f ∈ package_files pc \/ f ∈ config_files config.
Proof. unfold config_files. simpl. apply elem_of_app. Qed.

Lemma package_files_in_config config p fc :
  p ∈ config -> fc ∈ p.2 -> fc_file fc ∈ config_files config.
Proof.
  induction config as [|[name pc] config IH]; [by intros ?%elem_of_nil|].
  intros [->|Hp]%elem_of_cons Hfc; apply config_files_cons.
  - left. by apply list_elem_of_fmap_2.
  - right. by apply IH.
Qed.

Lemma collect_upgrades_total config upgrades w :
  NoDup (config_files config) ->
  (forall p fc, p ∈ config -> fc ∈ p.2 -> has_version w fc) ->
  exists w' : world, collect_upgrades config true upgrades w = Ret upgrades w'.
Proof.
  revert w. induction config as [|[name pc] config IH]; intros w Hnd Hval.
  { by exists w. }
  unfold config_files in Hnd. simpl in Hnd.
  apply NoDup_app in Hnd as (Hnd1 & Hdisj & Hnd2).
  destruct (process_package_upgrade_total name pc w Hnd1) as [w1 Hrun].
  { intros fc Hfc. apply (Hval (name, pc)); [by left|done]. }
  destruct (IH w1 Hnd2) as [w' Hrest].
  { intros p fc Hp Hfc. apply (has_version_local w).
    - symmetry. apply (process_package_frame name pc w None w1); [done|].
      intros Hin. apply (Hdisj _ Hin). by apply (package_files_in_config _ p).
    - apply (Hval p); [by right|done]. }
  exists w'. simpl. unfold mbind, M_bind, bind. by rewrite Hrun.
Qed.

Lemma collect_upgrades_resolves config upgrades w :
  NoDup (config_files config) ->
  (forall p fc, p ∈ config -> fc ∈ p.2 -> location_ready w fc) ->
  (forall p fc, p ∈ config -> fc ∈ p.2 -> text_shown w fc) ->
  (forall p, p ∈ config -> terminators_clear w p.2) ->
  exists w' : world,
    collect_upgrades config true upgrades w = Ret upgrades w' /\
    (forall p, p ∈ config -> exists h, all_hold w' p.2 h) /\
    (forall f, f ∉ config_files config -> files w' !! f = files w !! f).
Proof.
  revert w. induction config as [|[name pc] config IH];
    intros w Hnd Hready Hshown Hclear.
  { exists w. split_and!; [done|by intros p ?%elem_of_nil|done]. }
  unfold config_files in Hnd. simpl in Hnd.
  apply NoDup_app in Hnd as (Hnd1 & Hdisj & Hnd2).
  destruct (process_package_upgrade_resolves name pc w Hnd1)
    as (w1 & h & Hrun & Hall).
  { intros fc Hfc. apply (Hready (name, pc)); [by left|done]. }
  { intros fc Hfc. apply (Hshown (name, pc)); [by left|done]. }
  { apply (Hclear (name, pc)). by left. }
  assert (Hsame : forall p fc, p ∈ config -> fc ∈ p.2 ->
            files w !! fc_file fc = files w1 !! fc_file fc).
  { intros p fc Hp Hfc. symmetry.
    apply (process_package_frame name pc w None w1); [done|].
    intros Hin. apply (Hdisj _ Hin). by apply (package_files_in_config _ p). }
  destruct (IH w1 Hnd2) as (w' & Hrest & Hall' & Hframe).
  { intros p fc Hp Hfc. apply (location_ready_local w); [by apply (Hsame p)|].
    apply (Hready p); [by right|done]. }
  { intros p fc Hp Hfc. apply (text_shown_local w); [by apply (Hsame p)|].
    apply (Hshown p); [by right|done]. }
  { intros p Hp fc fc' v Hfc Hfc' Hv.
    apply (Hclear p ltac:(by right) fc fc' v Hfc Hfc').
    by rewrite (location_value_local w w1 fc' (Hsame p fc' Hp Hfc')). }
  exists w'. split_and!.
  - simpl. unfold mbind, M_bind, bind. by rewrite Hrun.
  - intros p [->|Hp]%elem_of_cons; [|by apply Hall'].
    exists h. apply (all_hold_local w1); [|done]. intros fc Hfc. symmetry.
    apply Hframe. intros Hin. apply (Hdisj (fc_file fc)); [|done].
    by apply list_elem_of_fmap_2.
  - intros f Hf. rewrite Hframe.
    + apply (process_package_frame name pc w None w1); [done|].
      intros Hin. apply Hf, config_files_cons. by left.
    + intros Hin. apply Hf, config_files_cons. by right.
Qed.

End UpgradeResolves.

(** X14. A run in upgrade mode completes with success when every location
    is in a file of its own and holds a version string with a digit, whose
    digit runs [int] converts. *)
Theorem upgrade_run_completes :
  forall (config : list (str * list file_config)) (w : world),
    NoDup (config_files config) ->
    (forall p fc, p ∈ config -> fc ∈ p.2 -> has_version w fc) ->
    exists w' : world, process_config config true w = Ret true w'.
Proof.
  intros config w Hnd Hval.
  destruct (collect_upgrades_total config [] w Hnd Hval) as [w' Hcol].
  eexists. unfold process_config, mbind, M_bind, bind. by rewrite Hcol.
Qed.

(** X15. Upgrading resolves the mismatches, whatever the line ends of the
    files on the disk are.  When every location is in a file of its own,
    holds a version string with a digit (whose digit runs [int] converts)
    at a column that is not negative, has a terminator without newline, and
    no terminator of a package starts inside a version held in that
    package: the run in upgrade mode returns success, afterwards all
    locations of each package hold one string, and a run that only checks
    then prints [All versions match] and nothing else. *)
Theorem upgrade_run_resolves :
  forall (config : list (str * list file_config)) (disk : gmap str str)
         (out : list str),
    NoDup (config_files config) ->
    (forall p fc, p ∈ config -> fc ∈ p.2 ->
       location_ready (World (text_layer disk) out) fc) ->
    (forall p, p ∈ config ->
       terminators_clear (World (text_layer disk) out) p.2) ->
    exists w' : world,
      process_config config true (World (text_layer disk) out) = Ret true w' /\
      (forall p, p ∈ config -> exists h, all_hold w' p.2 h) /\
      process_config config false w'
        = Ret true (World (files w') (stdout w' ++ [py "All versions match"])).
Proof.
  intros config disk out Hnd Hready Hclear.
  destruct (collect_upgrades_resolves config [] _ Hnd Hready) as
    (w1 & Hcol & Hall & _); [|done|].
  { intros p fc _ _ text Hf. by apply (text_layer_no_cr disk (fc_file fc)). }
  set (w' := World (files w1) (stdout w1 ++ [py "All versions match"])).
  assert (Hall' : forall p, p ∈ config -> exists h, all_hold w' p.2 h).
  { intros p Hp. destruct (Hall p Hp) as [h Hh]. exists h.
    by apply (all_hold_local w1). }
  exists w'. split_and!; [|done|].
  - unfold process_config, mbind, M_bind, bind. by rewrite Hcol.
  - unfold process_config, mbind, M_bind, bind.
    by rewrite collect_upgrades_all_hold.
Qed.

Lemma upgrade_run_completes_witness :
  let w := World {[ py "a.txt" := py "version = <0.9>" ++ [Py.newline];
                    py "b.txt" := py "V=1.0" ++ [Py.newline] ]} [] in
  exists w' : world,
    process_config
      [(py "pkg", [FileConfig (py "a.txt") 1 11 (py ">");
                   FileConfig (py "b.txt") 1 2 []])]
      true w = Ret true w'.
Proof.
  intros w. apply upgrade_run_completes.
  - apply (bool_decide_unpack _). reflexivity.
  - intros p fc Hp Hfc. apply list_elem_of_singleton in Hp as ->.
    simpl in Hfc.
    apply elem_of_cons in Hfc as [->|Hfc];
      [|apply list_elem_of_singleton in Hfc as ->];
      eexists;
      (split_and!;
       [reflexivity
       |intros Hd; by inversion Hd
       |apply (bool_decide_unpack _); vm_compute; reflexivity]).
Defined.

Lemma upgrade_run_resolves_witness :
  let config :=
    [(py "pkg", [FileConfig (py "a.txt") 1 11 (py ">");
                 FileConfig (py "b.txt") 1 2 []])] in
  let disk : gmap str str :=
    {[ py "a.txt" := py "version = <0.9>" ++ [Py.cr; Py.newline];
       py "b.txt" := py "V=1.0" ++ [Py.newline] ]} in
  exists w' : world,
    process_config config true (World (text_layer disk) []) = Ret true w' /\
    (forall p, p ∈ config -> exists h, all_hold w' p.2 h) /\
    process_config config false w'
      = Ret true (World (files w') (stdout w' ++ [py "All versions match"])).
Proof.
  intros config disk. apply upgrade_run_resolves.
  - apply (bool_decide_unpack _). reflexivity.
  - intros p fc Hp Hfc. apply list_elem_of_singleton in Hp as ->.
    simpl in Hfc.
    apply elem_of_cons in Hfc as [->|Hfc];
      [|apply list_elem_of_singleton in Hfc as ->];
      (split_and!;
       [eexists;
        (split_and!;
         [reflexivity
         |intros Hd; by inversion Hd
         |apply (bool_decide_unpack _); vm_compute; reflexivity])
       |simpl; lia
       |apply (bool_decide_unpack _); reflexivity]).
  - intros p Hp fc fc' v Hfc Hfc' Hv Hne i Hi.
    apply list_elem_of_singleton in Hp as ->. simpl in Hfc, Hfc'.
    apply elem_of_cons in Hfc as [->|Hfc];
      [|apply list_elem_of_singleton in Hfc as ->; by destruct Hne].
    apply elem_of_cons in Hfc' as [->|Hfc'];
      [|apply list_elem_of_singleton in Hfc' as ->];
      vm_compute in Hv; injection Hv as <-; simpl in Hi;
      do 3 (destruct i as [|i]; [by intros [? [=]]|]); lia.
Defined.

(** ** Several locations in one file *)

Section LastLocation.

Implicit Types (w : world) (pc : list file_config) (k : str)
  (d : Dict.t (option str)) (x : option str).

Lemma dict_set_entries d k x k' x' :
  NoDup d.*1 -> (k', x') ∈ Dict.set d k x ->
  (k' = k /\ x' = x) \/ (k' <> k /\ (k', x') ∈ d).
Proof.
  induction d as [|[k0 x0] d IH]; simpl; intros Hnd Hin.
  - apply list_elem_of_singleton in Hin as [= -> ->]. by left.
  - apply NoDup_cons in Hnd as [Hfresh Hnd].
    destruct (decide (k0 = k)) as [->|Hk0].
    + apply elem_of_cons in Hin as [[= -> ->]|Hin]; [by left|]. right.
      split; [|by right]. intros ->. apply Hfresh.
      by apply (list_elem_of_fmap_2 fst) in Hin.
    + apply elem_of_cons in Hin as [[= -> ->]|Hin].
      * right. split; [done|by left].
      * destruct (IH Hnd Hin) as [?|[? ?]]; [by left|]. right.
        split; [done|by right].
Qed.

Lemma dict_set_keys d k x k' :
  k' ∈ (Dict.set d k x).*1 <-> k' = k \/ k' ∈ d.*1.
Proof.
  induction d as [|[k0 x0] d IH]; simpl.
  - rewrite list_elem_of_singleton. split; [by left|].
    by intros [?|?%elem_of_nil].
  - destruct (decide (k0 = k)) as [->|Hk0]; simpl.
    + rewrite !elem_of_cons. tauto.
    + rewrite !elem_of_cons, IH. tauto.
Qed.

Lemma dict_set_NoDup d k x : NoDup d.*1 -> NoDup (Dict.set d k x).*1.
Proof.
  induction d as [|[k0 x0] d IH]; simpl; intros Hnd.
  - apply NoDup_singleton.
  - apply NoDup_cons in Hnd as [Hfresh Hnd].
    destruct (decide (k0 = k)) as [->|Hk0]; simpl.
    + by apply NoDup_cons.
    + apply NoDup_cons. split; [|by apply IH].
      rewrite dict_set_keys. by intros [?|?].
Qed.

(** Every entry of the dictionary comes from the last location of its
    file. *)
Lemma extracted_entries w pc d k x :
  NoDup d.*1 -> (k, x) ∈ extracted w pc d ->
  ((k, x) ∈ d /\ (k ∉ package_files pc)) \/
  exists pc1 fc pc2,
    pc = pc1 ++ fc :: pc2 /\ (fc_file fc ∉ package_files pc2) /\
    k = fc_file fc /\ x = location_value w fc.
Proof.
  revert d. induction pc as [|fc pc IH]; intros d Hnd Hin; simpl in *.
  - left. split; [done|apply not_elem_of_nil].
  - destruct (IH _ (dict_set_NoDup d (fc_file fc) (location_value w fc) Hnd) Hin)
      as [[Hd Hk]|(pc1 & fc' & pc2 & -> & Hlast & -> & ->)].
    + destruct (dict_set_entries d _ _ _ _ Hnd Hd) as [[-> ->]|[Hne Hd']].
      * right. by exists [], fc, pc.
      * left. split; [done|]. by intros [?|?]%elem_of_cons.
    + right. by exists (fc :: pc1), fc', pc2.
Qed.

End LastLocation.

(** X16. Of several locations in one file, only the last takes part in the
    comparison: when the last location of every file holds one and the
    same string, the package is taken to match and is left alone in either
    mode, whatever the other locations hold. *)
Theorem last_location_of_a_file_counts :
  forall (name : str) (pc : list file_config) (upgrade : bool) (w : world)
         (h : str),
    (forall fc, fc ∈ pc -> is_Some (files w !! fc_file fc)) ->
    (forall pc1 fc pc2,
       pc = pc1 ++ fc :: pc2 -> fc_file fc ∉ package_files pc2 ->
       location_value w fc = Some h) ->
    process_package name pc upgrade w = Ret None w.
Proof.
  intros name pc upgrade w h Hex Hlast.
  assert (Hm : versions_match (extracted w pc []) = true).
  { apply (values_all_equal _ h). intros x Hx. unfold Dict.values in Hx.
    apply list_elem_of_fmap in Hx as ([k x'] & -> & Hin). simpl.
    destruct (extracted_entries w pc [] k x' (NoDup_nil_2) Hin)
      as [[?%elem_of_nil _]|(pc1 & fc & pc2 & Hpc & Hl & _ & ->)]; [done|].
    by apply (Hlast pc1 fc pc2). }
  unfold process_package, mbind, M_bind, bind.
  rewrite extract_all_total by done. by rewrite Hm.
Qed.

Lemma last_location_of_a_file_counts_witness :
  let w := World {[ py "a.txt" := py "v=0.9" ++ [Py.newline] ++ py "w=1.0" ++ [Py.newline];
                    py "b.txt" := py "v=1.0" ++ [Py.newline] ]} [] in
  process_package (py "pkg")
    [FileConfig (py "a.txt") 1 2 []; FileConfig (py "a.txt") 2 2 [];
     FileConfig (py "b.txt") 1 2 []]
    false w
  = Ret None w.
Proof.
  intros w. apply (last_location_of_a_file_counts _ _ _ _ (py "1.0")).
  - intros fc Hfc.
    repeat (apply elem_of_cons in Hfc as [->|Hfc]; [by eexists|]).
    by apply elem_of_nil in Hfc.
  - intros pc1 fc pc2 Hpc Hl.
    destruct pc1 as [|x1 pc1]; simpl in Hpc.
    { injection Hpc as <- <-. exfalso. apply Hl. simpl. by left. }
    injection Hpc as _ Hpc. destruct pc1 as [|x2 pc1]; simpl in Hpc.
    { by injection Hpc as <- <-. }
    injection Hpc as _ Hpc. destruct pc1 as [|x3 pc1]; simpl in Hpc.
    { by injection Hpc as <- <-. }
    injection Hpc as _ Hpc. by destruct pc1.
Defined.

(** ** What upgrading a package prints and leaves alone *)

Section UpgradeOutput.

Lemma filter_iff_in {A} (P1 P2 : A -> Prop)
    `{!forall x, Decision (P1 x)} `{!forall x, Decision (P2 x)} (l : list A) :
  (forall x, x ∈ l -> P1 x <-> P2 x) -> filter P1 l = filter P2 l.
Proof.
  induction l as [|x l IH]; intros Hiff; [done|].
  rewrite !filter_cons.
  rewrite IH by (intros y Hy; apply Hiff; by right).
  destruct (decide (P1 x)) as [Hp1|Hp1], (decide (P2 x)) as [Hp2|Hp2];
    try done.
  - destruct Hp2. apply Hiff; [by left|done].
  - destruct Hp1. apply Hiff; [by left|done].
Qed.

End UpgradeOutput.

(** X17. Upgrading a package whose values differ, with every location in a
    file of its own: the run prints [Upgrading <package> to version
    <highest>], one line [  Updated <file>] for each location that does not
    hold the highest version, in the order of the locations, and an empty
    line; a file that holds the highest version already is left as it
    is. *)
Theorem upgrade_package_output :
  forall (name : str) (pc : list file_config) (w : world) (h : str),
    NoDup (package_files pc) ->
    (forall fc, fc ∈ pc -> location_ok w fc) ->
    versions_match (extracted w pc []) = false ->
    get_highest_version (extracted w pc []) = Ok (Some h) ->
    exists w' : world,
      process_package name pc true w = Ret None w' /\
      stdout w' =
        stdout w ++ [py "Upgrading " ++ name ++ py " to version " ++ h] ++
        ((fun fc => py "  Updated " ++ fc_file fc) <$>
           filter (fun fc => location_value w fc <> Some h) pc) ++ [[]] /\
      (forall fc, fc ∈ pc -> location_value w fc = Some h ->
                  files w' !! fc_file fc = files w !! fc_file fc).
Proof.
  intros name pc w h Hnd Hok Hmis Hh.
  set (versions := extracted w pc []) in *.
  set (w0 := World (files w)
               (stdout w ++ [py "Upgrading " ++ name ++ py " to version " ++ h])).
  destruct (upgrade_all_each versions h
              (fun w' fc =>
                 location_ok w' fc /\
                 files w' !! fc_file fc = files w !! fc_file fc /\
                 Dict.get versions (fc_file fc) = Some (location_value w fc))
              (fun w' fc =>
                 location_value w fc = Some h ->
                 files w' !! fc_file fc = files w !! fc_file fc))
    with (pc := pc) (w := w0) as (w1 & Hup & Hkeep & _ & Hout).
  - intros w1 w2 fc Hf (Hl & Hs & Hg). split_and!; [|by rewrite <- Hf|done].
    by apply (location_ok_local w1).
  - intros w1 w2 fc Hf Hq Hv. rewrite <- Hf. by apply Hq.
  - intros w' fc (_ & _ & Hg). by rewrite Hg.
  - by intros w' fc (_ & Hs & _) _ _.
  - intros w' fc (Hl & _ & Hg) Hne.
    destruct (set_version_str_total w' fc h Hl) as [t Ht]. exists t.
    split; [done|]. intros Hv. destruct Hne. by rewrite Hg, Hv.
  - done.
  - intros fc Hfc. split_and!; [|done|by apply extracted_get].
    by apply (location_ok_local w), Hok.
  - exists (World (files w1) (stdout w1 ++ [[]])). split_and!.
    + apply (process_package_upgrade_run name pc w h w1); [|done|done|done].
      intros fc (text & -> & _)%Hok. by eexists.
    + simpl. rewrite Hout. simpl. rewrite <- !app_assoc. do 3 f_equal.
      f_equal. apply filter_iff_in. intros fc Hfc. unfold versions.
      rewrite (extracted_get w pc [] fc Hnd Hfc). split.
      * intros Hn Hv. apply Hn. by rewrite Hv.
      * by intros Hn [= Hv].
    + intros fc Hfc Hv. by apply Hkeep.
Qed.

Lemma upgrade_package_output_witness :
  let w := World {[ py "a.txt" := py "v=0.9" ++ [Py.newline];
                    py "b.txt" := py "v=1.0" ++ [Py.newline] ]} [] in
  exists w' : world,
    process_package (py "pkg")
      [FileConfig (py "a.txt") 1 2 []; FileConfig (py "b.txt") 1 2 []] true w
      = Ret None w' /\
    stdout w' = [py "Upgrading pkg to version 1.0"; py "  Updated a.txt"; []] /\
    files w' !! py "b.txt" = Some (py "v=1.0" ++ [Py.newline]).
Proof.
  intros w.
  destruct (upgrade_package_output (py "pkg")
              [FileConfig (py "a.txt") 1 2 []; FileConfig (py "b.txt") 1 2 []]
              w (py "1.0")) as (w' & Hrun & Hout & Hkeep).
  - apply (bool_decide_unpack _). reflexivity.
  - intros fc Hfc.
    apply elem_of_cons in Hfc as [->|Hfc];
      [|apply list_elem_of_singleton in Hfc as ->];
      eexists; (split; [reflexivity|vm_compute; split; discriminate]).
  - reflexivity.
  - reflexivity.
  - exists w'. split_and!; [done|by rewrite Hout|].
    apply (Hkeep (FileConfig (py "b.txt") 1 2 [])); [|reflexivity].
    right. by left.
Defined.

(** X18. [process_config] never returns [False]: in a run that only checks
    it returns [True] also when mismatches were found and reported, so the
    exit status 1 of the program is out of reach. *)
Theorem run_never_returns_false :
  forall (config : list (str * list file_config)) (upgrade : bool)
         (w w' : world) (ok : bool),
    process_config config upgrade w = Ret ok w' -> ok = true.
Proof.
  intros config upgrade w w' ok (upgrades & w1 & _ & H)%bind_Ret.
  destruct (Dict.is_empty upgrades).
  - apply bind_Ret in H as (? & ? & _ & H). by injection H as <-.
  - destruct upgrade; simpl in H; [done|].
    apply bind_Ret in H as (? & ? & _ & H).
    apply bind_Ret in H as (? & ? & _ & H). by injection H as <-.
Qed.

Lemma run_never_returns_false_witness :
  let w := World {[ py "a.txt" := py "v=0.9" ++ [Py.newline];
                    py "b.txt" := py "v=1.0" ++ [Py.newline] ]} [] in
  exists w' : world,
    process_config
      [(py "pkg", [FileConfig (py "a.txt") 1 2 []; FileConfig (py "b.txt") 1 2 []])]
      false w = Ret true w'.
Proof.
  intros w.
  destruct (process_config
              [(py "pkg", [FileConfig (py "a.txt") 1 2 []; FileConfig (py "b.txt") 1 2 []])]
              false w) as [ok w'|e w'] eqn:E; [|discriminate E].
  exists w'. by rewrite (run_never_returns_false _ _ _ _ _ E).
Defined.
